(** * Car-Speed-Simulation: the motion estimator and the vehicle dynamics engine

    A shallow embedding of [src/backend/cpp/physics_engine.{hpp,cpp}] and of
    [src/backend/cpp/ekf.{hpp,cpp}], and the properties of them that the
    specification states.

    Numbers.  A C++ [double] is modelled as a real number of the Standard
    Library ([R]): arithmetic is exact, there is no rounding, no infinity and
    no NaN.  [M_PI] is the real [PI], [std::sin] and [std::cos] are [sin] and
    [cos].  An [int] is a [Z]; the only integer arithmetic of the code is on
    gear numbers, far from any overflow.

    Faults.  The dynamics engine indexes a six-element array and divides by
    fields of its parameter record.  Both are modelled as checked operations
    in a small error monad, so that "the call never fails" is a statement
    about the model.  A division by a numeric literal is written as it is.

    Exceptions.  The two methods of the estimator that can throw return
    whether they returned or threw, together with the estimator as the call
    leaves it. *)

From Stdlib Require Import String Reals Lra Lia ZArith List Bool.
From Equations Require Import Equations.
Import ListNotations.

Local Open Scope R_scope.

(** ** C++ library functions on doubles *)

Module Std.

Definition Rltb (a b : R) : bool := if Rlt_dec a b then true else false.
Definition Rleb (a b : R) : bool := if Rle_dec a b then true else false.
Definition Rgtb (a b : R) : bool := Rltb b a.
Definition Rgeb (a b : R) : bool := Rleb b a.

(** [std::max(a, b)] is [(a < b) ? b : a]. *)
Definition max (a b : R) : R := if Rltb a b then b else a.

(** [std::min(a, b)] is [(b < a) ? b : a]. *)
Definition min (a b : R) : R := if Rltb b a then b else a.

End Std.

Infix "<?" := Std.Rltb (at level 70, no associativity) : R_scope.
Infix "<=?" := Std.Rleb (at level 70, no associativity) : R_scope.
Infix ">?" := Std.Rgtb (at level 70, no associativity) : R_scope.
Infix ">=?" := Std.Rgeb (at level 70, no associativity) : R_scope.

(** ** Checked operations *)

Inductive fault : Type :=
| IndexOutOfBounds
| DivisionByZero.

Inductive res (A : Type) : Type :=
| Ok (a : A)
| Fault (f : fault).
Arguments Ok {A} a.
Arguments Fault {A} f.

Definition bind {A B : Type} (m : res A) (k : A -> res B) : res B :=
  match m with
  | Ok a => k a
  | Fault f => Fault f
  end.

Notation "x <- m ;; k" := (bind m (fun x => k))
  (at level 61, m at next level, right associativity).

(** [a / b] on doubles, refusing a zero divisor. *)
Definition fdiv (a b : R) : res R :=
  if Req_dec_T b 0 then Fault DivisionByZero else Ok (a / b).

(** [arr[i]] on a C array, refusing an index outside of it. *)
Definition index (arr : list R) (i : Z) : res R :=
  if (i <? 0)%Z then Fault IndexOutOfBounds
  else match nth_error arr (Z.to_nat i) with
       | Some r => Ok r
       | None => Fault IndexOutOfBounds
       end.

(** ** The vehicle dynamics engine ([physics_engine.hpp], [physics_engine.cpp]) *)

Record VehicleState : Type := mkVehicleState {
  speed_ms : R;
  acceleration_ms2 : R;
  position_m : R;
  grade_rad : R;
  elevation_m : R;
  engine_rpm : R;
  current_gear : Z;
  throttle_percent : R;
  brake_percent : R
}.

(** Assignment to one field of a [VehicleState]. *)
Definition set_speed_ms (s : VehicleState) (v : R) : VehicleState :=
  mkVehicleState v (acceleration_ms2 s) (position_m s) (grade_rad s)
    (elevation_m s) (engine_rpm s) (current_gear s) (throttle_percent s)
    (brake_percent s).

Definition set_acceleration_ms2 (s : VehicleState) (a : R) : VehicleState :=
  mkVehicleState (speed_ms s) a (position_m s) (grade_rad s)
    (elevation_m s) (engine_rpm s) (current_gear s) (throttle_percent s)
    (brake_percent s).

Definition set_position_m (s : VehicleState) (x : R) : VehicleState :=
  mkVehicleState (speed_ms s) (acceleration_ms2 s) x (grade_rad s)
    (elevation_m s) (engine_rpm s) (current_gear s) (throttle_percent s)
    (brake_percent s).

Record VehicleParams : Type := mkVehicleParams {
  mass_kg : R;
  frontal_area_m2 : R;
  drag_coefficient : R;
  rolling_resistance : R;
  max_engine_power_kw : R;
  max_torque_nm : R;
  idle_rpm : R;
  max_rpm : R;
  optimal_rpm : R;
  max_brake_force_n : R;
  brake_disc_radius_m : R;
  gravity_ms2 : R;
  air_density : R;
  gear_ratios : list R;
  final_drive_ratio : R;
  wheel_radius_m : R
}.

(** The default member initialisers of [struct VehicleParams]. *)
Definition default_params : VehicleParams := {|
  mass_kg := 1400.0;
  frontal_area_m2 := 2.1;
  drag_coefficient := 0.28;
  rolling_resistance := 0.012;
  max_engine_power_kw := 125.0;
  max_torque_nm := 220.0;
  idle_rpm := 800.0;
  max_rpm := 6500.0;
  optimal_rpm := 4000.0;
  max_brake_force_n := 9000.0;
  brake_disc_radius_m := 0.15;
  gravity_ms2 := 9.81;
  air_density := 1.225;
  gear_ratios := [3.54; 2.06; 1.36; 1.03; 0.84; 0.70];
  final_drive_ratio := 4.35;
  wheel_radius_m := 0.32
|}.

Record PhysicsEngine : Type := mkPhysicsEngine {
  params_ : VehicleParams;
  dt_ : R
}.

(** [PhysicsEngine(double dt = 0.1, VehicleParams params = VehicleParams())]
    with both arguments defaulted. *)
Definition default_engine : PhysicsEngine :=
  {| params_ := default_params; dt_ := 0.1 |}.

Section Engine.

Variable self : PhysicsEngine.

Let p := params_ self.

Definition calculateDragForce (speed_ms : R) : R :=
  0.5 * air_density p * drag_coefficient p * frontal_area_m2 p
  * speed_ms * speed_ms.

Definition calculateRollingResistance (speed_ms : R) : R :=
  rolling_resistance p * mass_kg p * gravity_ms2 p * (1.0 + speed_ms / 100.0).

Definition calculateGradeResistance (grade_rad : R) : R :=
  mass_kg p * gravity_ms2 p * sin grade_rad.

Definition calculateEngineRPM (speed_ms : R) (gear : Z) : res R :=
  let gear := if ((gear <? 1) || (gear >? 6))%Z then 1%Z else gear in
  gear_ratio <- index (gear_ratios p) (gear - 1) ;;
  w <- fdiv speed_ms (wheel_radius_m p) ;;
  wheel_speed_rpm <- fdiv (w * 60.0) (2.0 * PI) ;;
  Ok (wheel_speed_rpm * gear_ratio * final_drive_ratio p).

(** The body of [for (int gear = 1; gear <= 6; gear++)], run over the gears
    that are still to be tried; [return 1] when the loop runs out. *)
Fixpoint selectOptimalGear_loop (gears : list Z)
         (speed_ms target_speed_ms : R) : res Z :=
  match gears with
  | [] => Ok 1%Z
  | gear :: rest =>
      rpm <- calculateEngineRPM speed_ms gear ;;
      if (rpm >=? idle_rpm p) && (rpm <=? max_rpm p * 0.85) then
        target_rpm <- calculateEngineRPM target_speed_ms gear ;;
        if target_rpm <=? max_rpm p * 0.9 then Ok gear
        else selectOptimalGear_loop rest speed_ms target_speed_ms
      else selectOptimalGear_loop rest speed_ms target_speed_ms
  end.

Definition selectOptimalGear (speed_ms target_speed_ms : R) : res Z :=
  selectOptimalGear_loop [1; 2; 3; 4; 5; 6]%Z speed_ms target_speed_ms.

Definition calculateEngineTorque (rpm throttle_percent : R) : res R :=
  torque_ratio <-
    (if rpm <? idle_rpm p then Ok 0.3
     else if rpm <? optimal_rpm p then
       r <- fdiv (rpm - idle_rpm p) (optimal_rpm p - idle_rpm p) ;;
       Ok (0.6 + 0.4 * r)
     else if rpm <? max_rpm p * 0.8 then Ok 1.0
     else
       r <- fdiv (rpm - max_rpm p * 0.8) (max_rpm p * 0.2) ;;
       Ok (1.0 - 0.3 * r)) ;;
  let torque_ratio := Std.max 0.2 (Std.min 1.0 torque_ratio) in
  Ok (max_torque_nm p * torque_ratio * (throttle_percent / 100.0)).

Definition shouldUpshift (rpm speed_ms : R) : bool :=
  (rpm >? optimal_rpm p * 1.3) && (speed_ms >? 5.0).

Definition shouldDownshift (rpm speed_ms : R) : bool :=
  (rpm <? idle_rpm p * 1.5) && (speed_ms >? 2.0).

Definition calculateEngineForce (speed_ms throttle_percent : R) (gear : Z)
  : res R :=
  rpm <- calculateEngineRPM speed_ms gear ;;
  torque_nm <- calculateEngineTorque rpm throttle_percent ;;
  gear_ratio <- index (gear_ratios p) (gear - 1) ;;
  let total_ratio := gear_ratio * final_drive_ratio p in
  fdiv (torque_nm * total_ratio) (wheel_radius_m p).

Definition calculateBrakeForce (brake_percent : R) : R :=
  max_brake_force_n p * (brake_percent / 100.0).

(** The two [std::cout] lines of the routine write a status message and
    touch nothing that the routine returns; they are left out. *)
Definition calculateAcceleration
           (current_speed_ms target_speed_ms grade_rad distance_to_target_m : R)
  : res R :=
  let current_speed_ms := if current_speed_ms <? 0 then 0.0 else current_speed_ms in
  let target_speed_ms := if target_speed_ms <? 0 then 0.0 else target_speed_ms in
  let speed_error := target_speed_ms - current_speed_ms in
  let need_accel := speed_error >? 0.1 in
  let need_brake := speed_error <? - 0.1 in
  let drag_force := calculateDragForce current_speed_ms in
  let rolling_force := calculateRollingResistance current_speed_ms in
  let grade_force := calculateGradeResistance grade_rad in
  let total_resistance := drag_force + rolling_force + grade_force in
  let Kp := 0.25 in
  let desired_accel := Std.max (- 6.0) (Std.min 4.0 (Kp * speed_error)) in
  net_force <-
    (if need_accel then
       gear <- selectOptimalGear current_speed_ms target_speed_ms ;;
       let throttle_percent :=
         Std.max 0.0 (Std.min 100.0 (desired_accel * 20.0 + 8.0)) in
       let throttle_percent :=
         if current_speed_ms <? 3.0 then Std.min throttle_percent 35.0
         else throttle_percent in
       engine_force <-
         calculateEngineForce current_speed_ms throttle_percent gear ;;
       let net_force := engine_force - total_resistance in
       max_available_accel <- fdiv engine_force (mass_kg p) ;;
       let max_available_accel :=
         if max_available_accel >? 4.0 then 4.0 else max_available_accel in
       Ok (Std.min net_force (mass_kg p * max_available_accel))
     else if need_brake then
       let brake_percent :=
         Std.max 0.0 (Std.min 100.0 (- desired_accel * 8.0)) in
       let brake_force := calculateBrakeForce brake_percent in
       let net_force := - (brake_force + total_resistance) in
       let max_brake_decel := 8.0 in
       Ok (Std.max net_force (- mass_kg p * max_brake_decel))
     else Ok 0.0) ;;
  acceleration <- fdiv net_force (mass_kg p) ;;
  Ok (Std.max (- 6.0) (Std.min 4.0 acceleration)).

(** [VehicleState next_state = current_state;] copies the record; the three
    assignments that follow it overwrite one field each. *)
Definition simulateStep (current_state : VehicleState)
           (target_speed_ms distance_to_target_m : R) : res VehicleState :=
  let next_state := current_state in
  a <- calculateAcceleration (speed_ms current_state) target_speed_ms
         (grade_rad current_state) distance_to_target_m ;;
  let next_state := set_acceleration_ms2 next_state a in
  let next_state :=
    set_speed_ms next_state
      (speed_ms current_state + acceleration_ms2 next_state * dt_ self) in
  let next_state :=
    set_speed_ms next_state (Std.max 0.0 (speed_ms next_state)) in
  let displacement :=
    speed_ms current_state * dt_ self
    + 0.5 * acceleration_ms2 next_state * dt_ self * dt_ self in
  let next_state :=
    set_position_m next_state (position_m current_state + displacement) in
  Ok next_state.

End Engine.


(** ** Dense vectors and matrices ([Eigen::VectorXd], [Eigen::MatrixXd])

    A dynamically sized vector is the list of its coefficients, a dynamically
    sized matrix the list of its rows.  The operations are the exact ones of
    linear algebra.  Eigen checks sizes and indices by assertion only; here a
    coefficient outside of the object reads as 0 and a write outside of it
    changes nothing.  None of that is reached by an estimator that was built
    by its constructor. *)

Module Eigen.

Definition VectorXd : Type := list R.
Definition MatrixXd : Type := list (list R).

Definition size (v : VectorXd) : Z := Z.of_nat (length v).

Definition rows (M : MatrixXd) : nat := length M.

Definition cols (M : MatrixXd) : nat :=
  match M with
  | [] => 0%nat
  | row :: _ => length row
  end.

(** [v(i)] and [M(i, j)], read. *)
Definition coeff (v : VectorXd) (i : nat) : R := nth i v 0.
Definition mcoeff (M : MatrixXd) (i j : nat) : R := nth j (nth i M []) 0.

Fixpoint list_set {A : Type} (l : list A) (i : nat) (a : A) : list A :=
  match l, i with
  | [], _ => []
  | _ :: t, O => a :: t
  | h :: t, S k => h :: list_set t k a
  end.

(** [v(i) = a] and [M(i, j) = a], written. *)
Definition vset (v : VectorXd) (i : nat) (a : R) : VectorXd := list_set v i a.

Definition mset (M : MatrixXd) (i j : nat) (a : R) : MatrixXd :=
  match nth_error M i with
  | Some row => list_set M i (list_set row j a)
  | None => M
  end.

Definition VZero (n : nat) : VectorXd := repeat 0 n.

Definition Zero (n m : nat) : MatrixXd := repeat (repeat 0 m) n.

Definition Identity (n m : nat) : MatrixXd :=
  map (fun i => map (fun j => if Nat.eqb i j then 1 else 0) (seq 0 m)) (seq 0 n).

(** [M.setIdentity()] keeps the size of [M]. *)
Definition setIdentity (M : MatrixXd) : MatrixXd := Identity (rows M) (cols M).

Fixpoint map2 {A B C : Type} (f : A -> B -> C) (l : list A) (l' : list B)
  : list C :=
  match l, l' with
  | a :: t, b :: t' => f a b :: map2 f t t'
  | _, _ => []
  end.

Definition dot (u v : VectorXd) : R := fold_right Rplus 0 (map2 Rmult u v).

Definition vadd (u v : VectorXd) : VectorXd := map2 Rplus u v.
Definition vsub (u v : VectorXd) : VectorXd := map2 Rminus u v.

Definition col (M : MatrixXd) (j : nat) : VectorXd :=
  map (fun row => nth j row 0) M.

Definition transpose (M : MatrixXd) : MatrixXd :=
  map (col M) (seq 0 (cols M)).

Definition madd (A B : MatrixXd) : MatrixXd := map2 (map2 Rplus) A B.
Definition msub (A B : MatrixXd) : MatrixXd := map2 (map2 Rminus) A B.

(** [M * s] for a scalar [s]. *)
Definition mscale (M : MatrixXd) (s : R) : MatrixXd :=
  map (map (fun a => a * s)) M.

(** [M * v] for a vector [v]. *)
Definition mvmul (M : MatrixXd) (v : VectorXd) : VectorXd :=
  map (fun row => dot row v) M.

Definition mmul (A B : MatrixXd) : MatrixXd :=
  map (fun row => map (fun j => dot row (col B j)) (seq 0 (cols B))) A.

Fixpoint remove_nth {A : Type} (l : list A) (i : nat) : list A :=
  match l, i with
  | [], _ => []
  | _ :: t, O => t
  | h :: t, S k => h :: remove_nth t k
  end.

(** The matrix without row [i] and column [j]. *)
Definition minor (M : MatrixXd) (i j : nat) : MatrixXd :=
  map (fun row => remove_nth row j) (remove_nth M i).

(** Expansion of the determinant of an [n] by [n] matrix along its first
    row. *)
Fixpoint det_n (n : nat) (M : MatrixXd) : R :=
  match n with
  | O => 1
  | S k =>
      fold_right Rplus 0
        (map (fun j => (- 1) ^ j * mcoeff M 0 j * det_n k (minor M 0 j))
             (seq 0 (S k)))
  end.

Definition determinant (M : MatrixXd) : R := det_n (rows M) M.

(** [M.inverse()]: the transposed cofactors over the determinant.  For a
    singular [M] every coefficient is a division by zero, a value of which
    nothing is known; Eigen does not signal it. *)
Definition inverse (M : MatrixXd) : MatrixXd :=
  let n := rows M in
  map (fun i =>
         map (fun j => (- 1) ^ (i + j) * determinant (minor M j i)
                       / determinant M)
             (seq 0 n))
      (seq 0 n).

End Eigen.

(** ** The motion estimator ([ekf.hpp], [ekf.cpp]) *)

Module Estimator.

Import Eigen.

Record EKF : Type := mkEKF {
  dt_ : R;
  state_dim_ : Z;
  meas_dim_ : Z;
  F_ : MatrixXd;
  H_ : MatrixXd;
  Q_ : MatrixXd;
  R_ : MatrixXd;
  P_ : MatrixXd;
  x_ : VectorXd
}.

(** Assignment to one member. *)
Definition set_dt_ (e : EKF) (dt : R) : EKF :=
  mkEKF dt (state_dim_ e) (meas_dim_ e) (F_ e) (H_ e) (Q_ e) (R_ e) (P_ e) (x_ e).

Definition set_F_ (e : EKF) (F : MatrixXd) : EKF :=
  mkEKF (dt_ e) (state_dim_ e) (meas_dim_ e) F (H_ e) (Q_ e) (R_ e) (P_ e) (x_ e).

Definition set_P_ (e : EKF) (P : MatrixXd) : EKF :=
  mkEKF (dt_ e) (state_dim_ e) (meas_dim_ e) (F_ e) (H_ e) (Q_ e) (R_ e) P (x_ e).

Definition set_x_ (e : EKF) (x : VectorXd) : EKF :=
  mkEKF (dt_ e) (state_dim_ e) (meas_dim_ e) (F_ e) (H_ e) (Q_ e) (R_ e) (P_ e) x.

(** What a method call leaves behind: it returned, or it threw. *)
Inductive exn : Type :=
| runtime_error (what : string).

Inductive outcome : Type :=
| Returned
| Thrown (e : exn).

(** [EKF::EKF(double dt)]. *)
Definition new (dt : R) : EKF :=
  let state_dim := 5%Z in
  let meas_dim := 2%Z in
  let F := Identity (Z.to_nat state_dim) (Z.to_nat state_dim) in
  let F := mset F 0 2 dt in
  let F := mset F 1 3 dt in
  let H := Zero (Z.to_nat meas_dim) (Z.to_nat state_dim) in
  let H := mset H 0 0 1.0 in
  let H := mset H 1 1 1.0 in
  let Q := Zero (Z.to_nat state_dim) (Z.to_nat state_dim) in
  let Q := mset Q 0 0 1e-3 in
  let Q := mset Q 1 1 1e-3 in
  let Q := mset Q 2 2 5e-2 in
  let Q := mset Q 3 3 5e-2 in
  let Q := mset Q 4 4 1e-2 in
  let R := Zero (Z.to_nat meas_dim) (Z.to_nat meas_dim) in
  let R := mset R 0 0 3.0 in
  let R := mset R 1 1 3.0 in
  let x := VZero (Z.to_nat state_dim) in
  let P := mscale (Identity (Z.to_nat state_dim) (Z.to_nat state_dim)) 10.0 in
  mkEKF dt state_dim meas_dim F H Q R P x.

(** [void EKF::init(const VectorXd& x0)]: the state after the call, and
    whether the call returned or threw. *)
Definition init (x0 : VectorXd) (self : EKF) : outcome * EKF :=
  if negb (size x0 =? state_dim_ self)%Z then
    (Thrown (runtime_error "EKF::init: wrong state size"), self)
  else
    let self := set_x_ self x0 in
    let self := set_P_ self (setIdentity (P_ self)) in
    let self := set_P_ self (mscale (P_ self) 10.0) in
    (Returned, self).

Definition setDeltaT (dt : R) (self : EKF) : EKF :=
  let self := set_dt_ self dt in
  let self := set_F_ self (setIdentity (F_ self)) in
  let self := set_F_ self (mset (F_ self) 0 2 (dt_ self)) in
  let self := set_F_ self (mset (F_ self) 1 3 (dt_ self)) in
  self.

(** [while (yaw_new > M_PI) yaw_new -= 2.0 * M_PI;] *)
Equations? wrap_above (yaw_new : R) : R
  by wf (Z.to_nat (up ((yaw_new - PI) / (2.0 * PI)))) lt :=
  wrap_above yaw_new with Rgt_dec yaw_new PI := {
    | left _ => wrap_above (yaw_new - 2.0 * PI);
    | right _ => yaw_new }.
Proof.
  pose proof PI_RGT_0 as Hpi.
  set (q := (yaw_new - PI) / (2.0 * PI)).
  replace ((yaw_new - 2.0 * PI - PI) / (2.0 * PI)) with (q - 1)
    by (unfold q; field; lra).
  assert (Hq : 0 < q).
  { unfold q. apply Rmult_lt_0_compat; [lra |].
    apply Rinv_0_lt_compat. lra. }
  destruct (archimed q) as [Hup1 Hup2].
  assert (Hpos : (0 < up q)%Z) by (apply lt_IZR; lra).
  assert (Hstep : up (q - 1) = (up q - 1)%Z).
  { symmetry.
    replace (up q - 1)%Z with ((up q - 2) + 1)%Z by lia.
    apply up_tech; rewrite ?plus_IZR, minus_IZR; lra. }
  rewrite Hstep. lia.
Qed.

(** [while (yaw_new < -M_PI) yaw_new += 2.0 * M_PI;] *)
Equations? wrap_below (yaw_new : R) : R
  by wf (Z.to_nat (up ((- PI - yaw_new) / (2.0 * PI)))) lt :=
  wrap_below yaw_new with Rlt_dec yaw_new (- PI) := {
    | left _ => wrap_below (yaw_new + 2.0 * PI);
    | right _ => yaw_new }.
Proof.
  pose proof PI_RGT_0 as Hpi.
  set (q := (- PI - yaw_new) / (2.0 * PI)).
  replace ((- PI - (yaw_new + 2.0 * PI)) / (2.0 * PI)) with (q - 1)
    by (unfold q; field; lra).
  assert (Hq : 0 < q).
  { unfold q. apply Rmult_lt_0_compat; [lra |].
    apply Rinv_0_lt_compat. lra. }
  destruct (archimed q) as [Hup1 Hup2].
  assert (Hpos : (0 < up q)%Z) by (apply lt_IZR; lra).
  assert (Hstep : up (q - 1) = (up q - 1)%Z).
  { symmetry.
    replace (up q - 1)%Z with ((up q - 2) + 1)%Z by lia.
    apply up_tech; rewrite ?plus_IZR, minus_IZR; lra. }
  rewrite Hstep. lia.
Qed.

(** [void EKF::predict(double ax_body, double yaw_rate)]. *)
Definition predict (ax_body yaw_rate : R) (self : EKF) : EKF :=
  let x := coeff (x_ self) 0 in
  let y := coeff (x_ self) 1 in
  let vx := coeff (x_ self) 2 in
  let vy := coeff (x_ self) 3 in
  let yaw := coeff (x_ self) 4 in
  let yaw_new := yaw + yaw_rate * dt_ self in
  let yaw_new := wrap_above yaw_new in
  let yaw_new := wrap_below yaw_new in
  let ax_w := ax_body * cos yaw in
  let ay_w := ax_body * sin yaw in
  let vx_new := vx + ax_w * dt_ self in
  let vy_new := vy + ay_w * dt_ self in
  let x_new := x + vx * dt_ self + 0.5 * ax_w * dt_ self * dt_ self in
  let y_new := y + vy * dt_ self + 0.5 * ay_w * dt_ self * dt_ self in
  let self := set_x_ self (vset (x_ self) 0 x_new) in
  let self := set_x_ self (vset (x_ self) 1 y_new) in
  let self := set_x_ self (vset (x_ self) 2 vx_new) in
  let self := set_x_ self (vset (x_ self) 3 vy_new) in
  let self := set_x_ self (vset (x_ self) 4 yaw_new) in
  let self := set_F_ self (setIdentity (F_ self)) in
  let self := set_F_ self (mset (F_ self) 0 2 (dt_ self)) in
  let self := set_F_ self (mset (F_ self) 1 3 (dt_ self)) in
  set_P_ self
    (madd (mmul (mmul (F_ self) (P_ self)) (transpose (F_ self))) (Q_ self)).

(** [void EKF::update(const VectorXd& z)]. *)
Definition update (z : VectorXd) (self : EKF) : outcome * EKF :=
  if negb (size z =? meas_dim_ self)%Z then
    (Thrown (runtime_error "EKF::update: wrong measurement size"), self)
  else
    let y := vsub z (mvmul (H_ self) (x_ self)) in
    let S := madd (mmul (mmul (H_ self) (P_ self)) (transpose (H_ self)))
                  (R_ self) in
    let K := mmul (mmul (P_ self) (transpose (H_ self))) (inverse S) in
    let self := set_x_ self (vadd (x_ self) (mvmul K y)) in
    let I := Identity (Z.to_nat (state_dim_ self)) (Z.to_nat (state_dim_ self)) in
    let self := set_P_ self (mmul (msub I (mmul K (H_ self))) (P_ self)) in
    (Returned, self).

(** [VectorXd EKF::state() const]. *)
Definition state (self : EKF) : VectorXd := x_ self.

End Estimator.

(** ** Quantities the statements below speak of *)

(** Wheel revolutions per minute at [speed_ms], for the default wheel radius:
    the [wheel_speed_rpm] of [calculateEngineRPM]. *)
Definition wheel_rpm (speed_ms : R) : R := speed_ms / 0.32 * 60.0 / (2.0 * PI).

(** What the engine needs of its parameter record: the six gear ratios of
    [double gear_ratios[6]], and a non-zero wheel radius, mass and red line. *)
Definition nondegenerate (p : VehicleParams) : Prop :=
  length (gear_ratios p) = 6%nat /\
  wheel_radius_m p <> 0 /\ mass_kg p <> 0 /\ max_rpm p <> 0.

(** ** What the constructor establishes for an estimator

    The members of an [EKF] are private: they are set by the constructor and
    only changed by the methods.  [built] collects what holds of them as a
    consequence, whatever the state and the covariance are. *)

Module EstimatorSpec.

Import Eigen Estimator.

(** [M] has [n] rows of [m] coefficients. *)
Definition is_matrix (n m : nat) (M : MatrixXd) : Prop :=
  length M = n /\ Forall (fun row => length row = m) M.

(** The observation matrix: it selects x and y. *)
Definition H_position : MatrixXd :=
  [[1.0; 0; 0; 0; 0];
   [0; 1.0; 0; 0; 0]].

(** The transition Jacobian for a time delta [dt], as [setDeltaT] and
    [predict] store it. *)
Definition F_transition (dt : R) : MatrixXd :=
  [[1; 0; dt; 0; 0];
   [0; 1; 0; dt; 0];
   [0; 0; 1; 0; 0];
   [0; 0; 0; 1; 0];
   [0; 0; 0; 0; 1]].

(** The process-noise diagonal. *)
Definition Q_process : MatrixXd :=
  [[1e-3; 0; 0; 0; 0];
   [0; 1e-3; 0; 0; 0];
   [0; 0; 5e-2; 0; 0];
   [0; 0; 0; 5e-2; 0];
   [0; 0; 0; 0; 1e-2]].

(** The measurement-noise diagonal. *)
Definition R_measurement : MatrixXd :=
  [[3.0; 0];
   [0; 3.0]].

Definition built (e : EKF) : Prop :=
  state_dim_ e = 5%Z /\ meas_dim_ e = 2%Z /\
  is_matrix 5 5 (F_ e) /\
  H_ e = H_position /\ Q_ e = Q_process /\ R_ e = R_measurement /\
  is_matrix 5 5 (P_ e) /\ length (x_ e) = 5%nat.

(** The sum of [f 0], ..., [f (n - 1)]. *)
Fixpoint sum_n (n : nat) (f : nat -> R) : R :=
  match n with
  | O => 0
  | S k => sum_n k f + f k
  end.

(** The transition Jacobian of the specification: the identity, with [dt] at
    (0, 2) and at (1, 3). *)
Definition F_entry (dt : R) (i j : nat) : R :=
  if Nat.eqb i j then 1
  else if (Nat.eqb i 0 && Nat.eqb j 2) || (Nat.eqb i 1 && Nat.eqb j 3) then dt
  else 0.

(** The process noise of the specification, by coefficient. *)
Definition Q_entry (i j : nat) : R :=
  if Nat.eqb i j then nth i [1e-3; 1e-3; 5e-2; 5e-2; 1e-2] 0 else 0.

(** Coefficient (i, j) of [F * P * F^T + Q]. *)
Definition propagated (dt : R) (P : MatrixXd) (i j : nat) : R :=
  sum_n 5 (fun k => sum_n 5 (fun l =>
    F_entry dt i k * mcoeff P k l * F_entry dt j l)) + Q_entry i j.

(** [r] is the angle [a] brought into [-PI, PI] by whole turns. *)
Definition wrapped (a r : R) : Prop :=
  - PI <= r <= PI /\ exists k : Z, r = a + IZR k * (2 * PI).

Definition symmetric (M : MatrixXd) : Prop := transpose M = M.

(** [v^T * M * v >= 0] for every [v] of the size of [M]. *)
Definition positive_semidefinite (M : MatrixXd) : Prop :=
  forall v : VectorXd, length v = rows M -> 0 <= dot v (mvmul M v).

(** [M] has an inverse. *)
Definition invertible (M : MatrixXd) : Prop :=
  exists N : MatrixXd,
    is_matrix (rows M) (rows M) N /\
    mmul M N = Identity (rows M) (rows M) /\
    mmul N M = Identity (rows M) (rows M).

(** The innovation covariance [S = H * P * H^T + R] of an estimator. *)
Definition innovation_covariance (e : EKF) : MatrixXd :=
  madd (mmul (mmul (H_ e) (P_ e)) (transpose (H_ e))) (R_ e).

(** The initial covariance: 10 on the diagonal. *)
Definition P_initial : MatrixXd :=
  [[10; 0; 0; 0; 0];
   [0; 10; 0; 0; 0];
   [0; 0; 10; 0; 0];
   [0; 0; 0; 10; 0];
   [0; 0; 0; 0; 10]].

End EstimatorSpec.

(** ** Geometry and angle utilities of the trajectory program ([main.cpp])

    [std::sqrt] is the [sqrt] of the Standard Library, which is 0 below 0
    where the C++ function has no real value; [std::atan2] is defined by its
    cases on the signs of its arguments, from [atan]. *)

Module Geo.

(** [std::clamp(v, lo, hi)] is [(v < lo) ? lo : (hi < v) ? hi : v]. *)
Definition std_clamp (v lo hi : R) : R :=
  if v <? lo then lo else if hi <? v then hi else v.

(** [std::atan2(y, x)]. *)
Definition atan2 (y x : R) : R :=
  if 0 <? x then atan (y / x)
  else if x <? 0 then
    if y <? 0 then atan (y / x) - PI else atan (y / x) + PI
  else if 0 <? y then PI / 2
  else if y <? 0 then - (PI / 2)
  else 0.

Definition DEG2RAD : R := PI / 180.0.
Definition RAD2DEG : R := 180.0 / PI.
Definition EARTH_R : R := 6378137.0.
Definition GRAVITY : R := 9.80665.

Definition MAX_YAWRATE : R := 0.6.
Definition MAX_LONG_ACC : R := 2.0.
Definition MAX_LONG_DEC : R := - 3.0.
Definition MIN_DT : R := 0.05.
Definition MAX_DT : R := 2.0.

Definition clampd (v lo hi : R) : R := std_clamp v lo hi.

Definition haversine_m (lat1 lon1 lat2 lon2 : R) : R :=
  let dlat := (lat2 - lat1) * DEG2RAD in
  let dlon := (lon2 - lon1) * DEG2RAD in
  let a := sin (dlat / 2) * sin (dlat / 2)
           + cos (lat1 * DEG2RAD) * cos (lat2 * DEG2RAD)
             * sin (dlon / 2) * sin (dlon / 2) in
  let c := 2 * atan2 (sqrt a) (sqrt (1 - a)) in
  EARTH_R * c.

(** [ll_to_local_xy] writes its results through [x] and [y]; here they are
    returned as a pair. *)
Definition ll_to_local_xy (lat0 lon0 lat lon : R) : R * R :=
  let x_m := (lon - lon0) * DEG2RAD * EARTH_R
             * cos ((lat0 + lat) * 0.5 * DEG2RAD) in
  let y_m := (lat - lat0) * DEG2RAD * EARTH_R in
  (x_m, y_m).

(** [local_xy_to_ll] writes its results through [lat] and [lon]; here they
    are returned as the pair (lat, lon). *)
Definition local_xy_to_ll (lat0 lon0 x y : R) : R * R :=
  let lat_mid := lat0 * DEG2RAD in
  let lat := lat0 + (y / EARTH_R) * RAD2DEG in
  let lon := lon0 + (x / (EARTH_R * cos lat_mid)) * RAD2DEG in
  (lat, lon).


(** [norm_angle]: the two loops are those of [EKF::predict]. *)
Definition norm_angle (a : R) : R :=
  let a := Estimator.wrap_above a in
  let a := Estimator.wrap_below a in
  a.

Definition slope_deg (dz dist_m : R) : R :=
  if dist_m <=? 1e-6 then 0.0
  else
    let slope_rad := atan2 dz dist_m in
    slope_rad * RAD2DEG.

End Geo.

(** ** The estimators that a program can hold

    The members of an [EKF] are private, so an estimator is what the
    constructor returns or what a method leaves of such an estimator. *)

Module EstimatorReach.

Import Eigen Estimator.

Inductive reachable : EKF -> Prop :=
| reach_new (dt : R) : reachable (new dt)
| reach_init (s : VectorXd) (e : EKF) :
    reachable e -> reachable (snd (init s e))
| reach_setDeltaT (dt : R) (e : EKF) :
    reachable e -> reachable (setDeltaT dt e)
| reach_predict (ax_body yaw_rate : R) (e : EKF) :
    reachable e -> reachable (predict ax_body yaw_rate e)
| reach_update (z : VectorXd) (e : EKF) :
    reachable e -> reachable (snd (update z e)).

End EstimatorReach.

(** ** The speed-profile program ([physics_main.cpp]) *)

(** Assignment to further fields of a [VehicleState]. *)
Definition set_grade_rad (s : VehicleState) (g : R) : VehicleState :=
  mkVehicleState (speed_ms s) (acceleration_ms2 s) (position_m s) g
    (elevation_m s) (engine_rpm s) (current_gear s) (throttle_percent s)
    (brake_percent s).

Definition set_elevation_m (s : VehicleState) (h : R) : VehicleState :=
  mkVehicleState (speed_ms s) (acceleration_ms2 s) (position_m s) (grade_rad s)
    h (engine_rpm s) (current_gear s) (throttle_percent s)
    (brake_percent s).

Definition set_engine_rpm (s : VehicleState) (rpm : R) : VehicleState :=
  mkVehicleState (speed_ms s) (acceleration_ms2 s) (position_m s) (grade_rad s)
    (elevation_m s) rpm (current_gear s) (throttle_percent s)
    (brake_percent s).

Definition set_current_gear (s : VehicleState) (gear : Z) : VehicleState :=
  mkVehicleState (speed_ms s) (acceleration_ms2 s) (position_m s) (grade_rad s)
    (elevation_m s) (engine_rpm s) gear (throttle_percent s)
    (brake_percent s).

Module RoutePoint.

Record t : Type := mk {
  lat : R;
  lon : R;
  speed_kmh : R;
  elevation_m : R;
  slope_deg : R;
  distance_m : R
}.

End RoutePoint.

Module Simulation.

(** [VehicleParams params;] followed by the six assignments of [main]. *)
Definition params : VehicleParams := {|
  mass_kg := 1500.0;
  frontal_area_m2 := 2.5;
  drag_coefficient := 0.35;
  rolling_resistance := 0.015;
  max_engine_power_kw := 150.0;
  max_torque_nm := max_torque_nm default_params;
  idle_rpm := idle_rpm default_params;
  max_rpm := max_rpm default_params;
  optimal_rpm := optimal_rpm default_params;
  max_brake_force_n := 8000.0;
  brake_disc_radius_m := brake_disc_radius_m default_params;
  gravity_ms2 := gravity_ms2 default_params;
  air_density := air_density default_params;
  gear_ratios := gear_ratios default_params;
  final_drive_ratio := final_drive_ratio default_params;
  wheel_radius_m := wheel_radius_m default_params
|}.

(** [PhysicsEngine physics(0.1, params);] *)
Definition physics : PhysicsEngine := mkPhysicsEngine params 0.1.

Definition dt : R := 0.1.
Definition target_rate_ms_per_s : R := 1.5.
Definition max_target_delta : R := target_rate_ms_per_s * dt.

(** What the loop of [main] carries from one route point to the next. *)
Record Carry : Type := mkCarry {
  current_state : VehicleState;
  filtered_target_ms : R
}.

(** The body of the loop over the route points, up to the point where the
    output record is built. *)
Definition loop_body (point : RoutePoint.t) (c : Carry) : res Carry :=
  let current_state := current_state c in
  let filtered_target_ms := filtered_target_ms c in
  let target_speed_ms_raw := RoutePoint.speed_kmh point / 3.6 in
  let delta := target_speed_ms_raw - filtered_target_ms in
  let delta := if delta >? max_target_delta then max_target_delta else delta in
  let delta :=
    if delta <? - max_target_delta then - max_target_delta else delta in
  let filtered_target_ms := filtered_target_ms + delta in
  let target_speed_ms := Std.max 0.0 filtered_target_ms in
  let current_state :=
    set_grade_rad current_state (RoutePoint.slope_deg point * PI / 180.0) in
  let current_state :=
    set_elevation_m current_state (RoutePoint.elevation_m point) in
  let distance_to_target := RoutePoint.distance_m point in
  a <- calculateAcceleration physics (speed_ms current_state) target_speed_ms
         (grade_rad current_state) distance_to_target ;;
  let current_state := set_acceleration_ms2 current_state a in
  let current_state :=
    set_speed_ms current_state
      (Std.max 0.0
         (speed_ms current_state + acceleration_ms2 current_state * dt)) in
  let current_state :=
    set_position_m current_state
      (position_m current_state + speed_ms current_state * dt) in
  gear <- selectOptimalGear physics (speed_ms current_state) target_speed_ms ;;
  let current_state := set_current_gear current_state gear in
  rpm <- calculateEngineRPM physics (speed_ms current_state)
           (current_gear current_state) ;;
  let current_state := set_engine_rpm current_state rpm in
  Ok (mkCarry current_state filtered_target_ms).

(** The loop: the carries after each route point, in order. *)
Fixpoint loop (points : list RoutePoint.t) (c : Carry) : res (list Carry) :=
  match points with
  | [] => Ok []
  | point :: rest =>
      c' <- loop_body point c ;;
      cs <- loop rest c' ;;
      Ok (c' :: cs)
  end.

End Simulation.

(** ** The trajectory program ([main.cpp])

    Reading and writing the JSON documents is left out.  What is kept of
    [main] is the arithmetic on each waypoint and the calls on the
    estimator, in the order of the source. *)

Module Trajectory.

Import Eigen Estimator Geo.

(** What the loop reads at index [i]: [route[i].timestamp], [meas_x[i]],
    [meas_y[i]], [raw_speed_ms[i]] and [seg_heading[i]]. *)
Record Waypoint : Type := mkWaypoint {
  timestamp : R;
  meas_x : R;
  meas_y : R;
  raw_speed_ms : R;
  seg_heading : R
}.

(** What the loop carries from one waypoint to the next. *)
Record Carry : Type := mkCarry {
  filter : EKF;
  prev_speed_ms : R;
  prev_heading : R;
  prev_timestamp : R;
  time_accum : R
}.

(** The numbers that the loop puts into the output record of a waypoint. *)
Record Sample : Type := mkSample {
  fused_lat : R;
  fused_lon : R;
  fused_vx : R;
  fused_vy : R;
  velocity_ms : R;
  heading : R;
  gyro_z : R;
  accel_x : R;
  accel_y : R;
  time_sec : R
}.

(** [init_dt]: 0.1, or the clamped difference of the first two timestamps
    when there are two and the difference is positive. *)
Definition initial_dt (timestamps : list R) : R :=
  let init_dt := 0.1 in
  match timestamps with
  | t0 :: t1 :: _ =>
      let dt0 := t1 - t0 in
      if dt0 >? 0.0 then clampd dt0 MIN_DT MAX_DT else init_dt
  | _ => init_dt
  end.

(** [EKF filter(init_dt);] and [filter.init(x0)] with
    [x0 << meas_x[0], meas_y[0], 0.0, 0.0, 0.0]. *)
Definition initial_filter (init_dt meas_x0 meas_y0 : R) : outcome * EKF :=
  let filter := new init_dt in
  let x0 := [meas_x0; meas_y0; 0.0; 0.0; 0.0] in
  init x0 filter.

(** The body of the loop over the waypoints: either the exception that
    leaves it, or the carry for the next waypoint and the sample of this
    one. *)
Definition loop_body (init_dt lat0 lon0 : R) (i : nat) (w : Waypoint)
           (c : Carry) : exn + Carry * Sample :=
  let ts := timestamp w in
  let dt := clampd (ts - prev_timestamp c) MIN_DT MAX_DT in
  let dt := if Nat.eqb i 0 then init_dt else dt in
  let prev_timestamp := ts in
  let time_accum := time_accum c + dt in
  let filter := if Nat.ltb 0 i then setDeltaT dt (filter c) else filter c in
  let z := [meas_x w; meas_y w] in
  match update z filter with
  | (Thrown e, _) => inl e
  | (Returned, filter) =>
      let xk := state filter in
      let vx := coeff xk 2 in
      let vy := coeff xk 3 in
      let ll := local_xy_to_ll lat0 lon0 (coeff xk 0) (coeff xk 1) in
      let v_ms := if Nat.eqb i 0 then prev_speed_ms c else raw_speed_ms w in
      let hdg := if Nat.eqb i 0 then prev_heading c else seg_heading w in
      let yaw_rate := 0.0 in
      let yaw_rate :=
        if Nat.ltb 0 i then
          let dpsi := norm_angle (hdg - prev_heading c) in
          dpsi / dt
        else yaw_rate in
      let yaw_rate := clampd yaw_rate (- MAX_YAWRATE) MAX_YAWRATE in
      let accel_long := 0.0 in
      let accel_long :=
        if Nat.ltb 0 i then
          let dv := v_ms - prev_speed_ms c in
          clampd (dv / dt) MAX_LONG_DEC MAX_LONG_ACC
        else accel_long in
      let filter := predict accel_long yaw_rate filter in
      let accel_lat := v_ms * yaw_rate in
      inr (mkCarry filter v_ms hdg prev_timestamp time_accum,
           mkSample (fst ll) (snd ll) vx vy v_ms hdg yaw_rate accel_long
             accel_lat time_accum)
  end.

(** The loop from index [i] on. *)
Fixpoint loop (init_dt lat0 lon0 : R) (i : nat) (ws : list Waypoint)
         (c : Carry) : exn + Carry * list Sample :=
  match ws with
  | [] => inr (c, [])
  | w :: rest =>
      match loop_body init_dt lat0 lon0 i w c with
      | inl e => inl e
      | inr (c', s) =>
          match loop init_dt lat0 lon0 (S i) rest c' with
          | inl e => inl e
          | inr (c'', ss) => inr (c'', s :: ss)
          end
      end
  end.

End Trajectory.
(** ** Facts about the library functions and the checked operations *)

Section StdFacts.

Lemma Rltb_true (a b : R) : (a <? b) = true <-> a < b.
Proof. unfold Std.Rltb. destruct (Rlt_dec a b); split; intros; easy. Qed.

Lemma Rltb_false (a b : R) : (a <? b) = false <-> b <= a.
Proof.
  unfold Std.Rltb. destruct (Rlt_dec a b); split; intros; try easy; lra.
Qed.

Lemma Rleb_true (a b : R) : (a <=? b) = true <-> a <= b.
Proof. unfold Std.Rleb. destruct (Rle_dec a b); split; intros; easy. Qed.

Lemma Rleb_false (a b : R) : (a <=? b) = false <-> b < a.
Proof.
  unfold Std.Rleb. destruct (Rle_dec a b); split; intros; try easy; lra.
Qed.

Lemma Rgtb_true (a b : R) : (a >? b) = true <-> a > b.
Proof. unfold Std.Rgtb. rewrite Rltb_true. lra. Qed.

Lemma Rgtb_false (a b : R) : (a >? b) = false <-> a <= b.
Proof. unfold Std.Rgtb. rewrite Rltb_false. lra. Qed.

Lemma Rgeb_true (a b : R) : (a >=? b) = true <-> a >= b.
Proof. unfold Std.Rgeb. rewrite Rleb_true. lra. Qed.

Lemma Rgeb_false (a b : R) : (a >=? b) = false <-> a < b.
Proof. unfold Std.Rgeb. rewrite Rleb_false. lra. Qed.

Lemma std_max_Rmax (a b : R) : Std.max a b = Rmax a b.
Proof.
  unfold Std.max, Rmax. destruct (a <? b) eqn:E.
  - apply Rltb_true in E. destruct (Rle_dec a b); lra.
  - apply Rltb_false in E. destruct (Rle_dec a b); lra.
Qed.

Lemma std_min_Rmin (a b : R) : Std.min a b = Rmin a b.
Proof.
  unfold Std.min, Rmin. destruct (b <? a) eqn:E.
  - apply Rltb_true in E. destruct (Rle_dec a b); lra.
  - apply Rltb_false in E. destruct (Rle_dec a b); lra.
Qed.

Lemma std_max_lb (a b : R) : a <= Std.max a b /\ b <= Std.max a b.
Proof. rewrite std_max_Rmax. split; [apply Rmax_l | apply Rmax_r]. Qed.

Lemma std_min_ub (a b : R) : Std.min a b <= a /\ Std.min a b <= b.
Proof. rewrite std_min_Rmin. split; [apply Rmin_l | apply Rmin_r]. Qed.

(** [std::max(lo, std::min(hi, x))] lies in [lo, hi] when [lo <= hi]. *)
Lemma clamp_bounds (lo hi x : R) :
  lo <= hi -> lo <= Std.max lo (Std.min hi x) <= hi.
Proof.
  intros Hle. rewrite std_max_Rmax, std_min_Rmin.
  unfold Rmax, Rmin.
  destruct (Rle_dec hi x); destruct (Rle_dec lo _); lra.
Qed.

Lemma fdiv_ok (a b : R) : b <> 0 -> fdiv a b = Ok (a / b).
Proof. intros Hb. unfold fdiv. destruct (Req_dec_T b 0); easy. Qed.

Lemma index_ok (arr : list R) (i : Z) :
  (0 <= i < Z.of_nat (length arr))%Z -> exists r, index arr i = Ok r.
Proof.
  intros [Hlo Hhi]. unfold index.
  destruct (i <? 0)%Z eqn:E; [lia |].
  destruct (nth_error arr (Z.to_nat i)) eqn:N; [eauto |].
  apply nth_error_None in N. lia.
Qed.

End StdFacts.

(** ** The dynamics engine never faults *)

Lemma default_params_nondegenerate : nondegenerate default_params.
Proof. unfold nondegenerate; simpl. repeat split; lra. Qed.

Section EngineTotal.

Variable self : PhysicsEngine.
Hypothesis Hnd : nondegenerate (params_ self).

Lemma two_PI_neq_0 : 2.0 * PI <> 0.
Proof. pose proof PI_RGT_0. lra. Qed.

Lemma gear_index_ok (gear : Z) :
  (1 <= gear <= 6)%Z ->
  exists r, index (gear_ratios (params_ self)) (gear - 1) = Ok r.
Proof.
  intros Hg. apply index_ok. destruct Hnd as [Hlen _]. rewrite Hlen. lia.
Qed.

Lemma calculateEngineRPM_total (speed : R) (gear : Z) :
  exists rpm, calculateEngineRPM self speed gear = Ok rpm.
Proof.
  unfold calculateEngineRPM.
  set (g := if ((gear <? 1) || (gear >? 6))%Z then 1%Z else gear).
  assert (Hg : (1 <= g <= 6)%Z).
  { subst g. destruct (gear <? 1)%Z eqn:E1; simpl; [lia |].
    destruct (gear >? 6)%Z eqn:E2; simpl; lia. }
  destruct (gear_index_ok g Hg) as [r Hr]. rewrite Hr. simpl.
  destruct Hnd as (_ & Hw & _ & _).
  rewrite (fdiv_ok _ _ Hw). simpl.
  rewrite (fdiv_ok _ _ two_PI_neq_0). simpl. eauto.
Qed.

Lemma selectOptimalGear_loop_total (gears : list Z) (speed target : R) :
  Forall (fun g => 1 <= g <= 6)%Z gears ->
  exists g, selectOptimalGear_loop self gears speed target = Ok g /\
            (1 <= g <= 6)%Z.
Proof.
  induction 1 as [| gear rest Hgear Hrest IH]; simpl.
  - exists 1%Z. split; [reflexivity | lia].
  - destruct (calculateEngineRPM_total speed gear) as [rpm ->]. simpl.
    destruct ((rpm >=? _) && (rpm <=? _)); [| exact IH].
    destruct (calculateEngineRPM_total target gear) as [trpm ->]. simpl.
    destruct (trpm <=? _); [| exact IH].
    exists gear. split; [reflexivity | exact Hgear].
Qed.

Lemma selectOptimalGear_total (speed target : R) :
  exists g, selectOptimalGear self speed target = Ok g /\ (1 <= g <= 6)%Z.
Proof.
  apply selectOptimalGear_loop_total.
  repeat constructor; lia.
Qed.

Lemma calculateEngineTorque_total (rpm throttle : R) :
  exists t, calculateEngineTorque self rpm throttle = Ok t.
Proof.
  unfold calculateEngineTorque.
  destruct (rpm <? idle_rpm _) eqn:E1; simpl; [eauto |].
  destruct (rpm <? optimal_rpm _) eqn:E2; simpl.
  - apply Rltb_false in E1. apply Rltb_true in E2.
    rewrite fdiv_ok by lra. simpl. eauto.
  - destruct (rpm <? max_rpm _ * 0.8) eqn:E3; simpl; [eauto |].
    destruct Hnd as (_ & _ & _ & Hmax).
    rewrite fdiv_ok by lra. simpl. eauto.
Qed.

Lemma calculateEngineForce_total (speed throttle : R) (gear : Z) :
  (1 <= gear <= 6)%Z ->
  exists f, calculateEngineForce self speed throttle gear = Ok f.
Proof.
  intros Hg. unfold calculateEngineForce.
  destruct (calculateEngineRPM_total speed gear) as [rpm ->]. simpl.
  destruct (calculateEngineTorque_total rpm throttle) as [t ->]. simpl.
  destruct (gear_index_ok gear Hg) as [r ->]. simpl.
  destruct Hnd as (_ & Hw & _ & _).
  rewrite (fdiv_ok _ _ Hw). eauto.
Qed.

(** For any parameter record that is not degenerate, the controller returns
    a value, and the value is within the final clamp. *)
Lemma calculateAcceleration_total_bounded (v target grade dist : R) :
  exists a, calculateAcceleration self v target grade dist = Ok a /\
            - 6 <= a <= 4.
Proof.
  unfold calculateAcceleration.
  set (cur := if v <? 0 then 0.0 else v).
  set (tgt := if target <? 0 then 0.0 else target).
  destruct Hnd as (_ & _ & Hm & _).
  match goal with
  | |- exists a, bind ?m _ = _ /\ _ =>
      assert (Hnet : exists f, m = Ok f); [| destruct Hnet as [f ->]]
  end.
  - destruct (tgt - cur >? 0.1).
    + destruct (selectOptimalGear_total cur tgt) as (g & -> & Hg). simpl.
      match goal with
      | |- context [calculateEngineForce self ?s ?t g] =>
          destruct (calculateEngineForce_total s t g Hg) as [ef ->]
      end.
      simpl. rewrite (fdiv_ok _ _ Hm). simpl. eauto.
    + destruct (tgt - cur <? - 0.1); eauto.
  - simpl. rewrite (fdiv_ok _ _ Hm). simpl.
    eexists. split; [reflexivity |].
    pose proof (clamp_bounds (- 6.0) 4.0 (f / mass_kg (params_ self))).
    lra.
Qed.

End EngineTotal.

(** ** Properties of the dynamics engine under the default parameters *)

Section DefaultEngine.

Variable dt : R.

Let engine : PhysicsEngine := mkPhysicsEngine default_params dt.

(** C3: for every input (currentSpeed, targetSpeed, grade,
    distanceToTarget), [calculateAcceleration] returns a value (no array
    index out of bounds, no division by zero) and the value lies in the
    closed interval [-6, 4]. *)
Theorem C3_calculateAcceleration_total_bounded :
  forall current_speed target_speed grade distance : R,
  exists a,
    calculateAcceleration engine current_speed target_speed grade distance
    = Ok a /\ - 6 <= a <= 4.
Proof.
  intros. apply calculateAcceleration_total_bounded.
  exact default_params_nondegenerate.
Qed.

Lemma clamp_speed_Rmax (v : R) : (if v <? 0 then 0.0 else v) = Rmax 0 v.
Proof.
  unfold Rmax. destruct (v <? 0) eqn:E.
  - apply Rltb_true in E. destruct (Rle_dec 0 v); lra.
  - apply Rltb_false in E. destruct (Rle_dec 0 v); lra.
Qed.

(** C8: when the speed error, taken after negative speeds are clamped to
    zero, is at most 0.1 in absolute value, [calculateAcceleration] returns
    exactly 0, whatever the grade and the distance. *)
Theorem C8_cruise_returns_zero :
  forall current_speed target_speed grade distance : R,
    Rabs (Rmax 0 target_speed - Rmax 0 current_speed) <= 0.1 ->
    calculateAcceleration engine current_speed target_speed grade distance
    = Ok 0.
Proof.
  intros v target grade dist Herr.
  unfold calculateAcceleration. rewrite !clamp_speed_Rmax.
  set (e := Rmax 0 target - Rmax 0 v) in *.
  assert (He : - 0.1 <= e <= 0.1).
  { unfold Rabs in Herr. destruct (Rcase_abs e); lra. }
  assert (Ha : (e >? 0.1) = false) by (apply Rgtb_false; lra).
  assert (Hb : (e <? - 0.1) = false) by (apply Rltb_false; lra).
  rewrite Ha, Hb. cbn [bind].
  rewrite fdiv_ok by (simpl; lra). cbn [bind]. f_equal.
  rewrite std_max_Rmax, std_min_Rmin. unfold Rmax, Rmin. simpl.
  destruct (Rle_dec 4.0 _); destruct (Rle_dec (- 6.0) _); lra.
Qed.

Lemma simulateStep_default (st : VehicleState) (target distance : R) :
  exists a,
    calculateAcceleration engine (speed_ms st) target (grade_rad st) distance
    = Ok a /\
    simulateStep engine st target distance
    = Ok (set_position_m
            (set_speed_ms (set_acceleration_ms2 st a)
               (Std.max 0.0 (speed_ms st + a * dt)))
            (position_m st + (speed_ms st * dt + 0.5 * a * dt * dt))).
Proof.
  destruct (calculateAcceleration_total_bounded engine
              default_params_nondegenerate
              (speed_ms st) target (grade_rad st) distance) as (a & Ha & _).
  exists a. split; [exact Ha |].
  unfold simulateStep. rewrite Ha. reflexivity.
Qed.

Lemma simulateStep_speed_nonneg (st : VehicleState) (target distance : R) :
  exists st', simulateStep engine st target distance = Ok st' /\
              0 <= speed_ms st'.
Proof.
  destruct (simulateStep_default st target distance) as (a & _ & ->).
  eexists. split; [reflexivity |]. simpl.
  pose proof (std_max_lb 0.0 (speed_ms st + a * dt)). lra.
Qed.

(** C7: for every input state (any speed, also a negative one), every
    target speed, every distance and every positive step size, the state
    that one call of [simulateStep] returns has a speed that is not
    negative. *)
Theorem C7_simulateStep_speed_nonneg :
  forall (st : VehicleState) (target_speed distance : R),
    0 < dt ->
    exists st', simulateStep engine st target_speed distance = Ok st' /\
                0 <= speed_ms st'.
Proof. intros st target distance _. apply simulateStep_speed_nonneg. Qed.

(** C10: the state that one call of [simulateStep] returns has the grade,
    elevation, engine RPM, gear, throttle and brake fields of the input
    state; only speed, acceleration and position are recomputed. *)
Theorem C10_simulateStep_frame :
  forall (st : VehicleState) (target_speed distance : R),
  exists st',
    simulateStep engine st target_speed distance = Ok st' /\
    grade_rad st' = grade_rad st /\
    elevation_m st' = elevation_m st /\
    engine_rpm st' = engine_rpm st /\
    current_gear st' = current_gear st /\
    throttle_percent st' = throttle_percent st /\
    brake_percent st' = brake_percent st.
Proof.
  intros st target distance.
  destruct (simulateStep_default st target distance) as (a & _ & ->).
  eexists. split; [reflexivity |]. simpl. repeat split.
Qed.

End DefaultEngine.

(** The instance named in the specification:
    [accelerationFor(20, 20, 0, 100) = 0]. *)
Lemma C8_cruise_returns_zero_witness :
  Rabs (Rmax 0 20 - Rmax 0 20) <= 0.1 /\
  calculateAcceleration (mkPhysicsEngine default_params 0.1) 20 20 0 100
  = Ok 0.
Proof.
  assert (H : Rabs (Rmax 0 20 - Rmax 0 20) <= 0.1).
  { replace (Rmax 0 20 - Rmax 0 20) with 0 by lra. rewrite Rabs_R0. lra. }
  split; [exact H |].
  exact (C8_cruise_returns_zero 0.1 20 20 0 100 H).
Defined.

(** A stopped vehicle asked to stay stopped, stepped by a tenth of a second. *)
Lemma C7_simulateStep_speed_nonneg_witness :
  0 < 0.1 /\
  exists st',
    simulateStep (mkPhysicsEngine default_params 0.1)
      (mkVehicleState 0 0 0 0 0 800 1 0 0) 0 1 = Ok st' /\
    0 <= speed_ms st'.
Proof.
  assert (H : 0 < 0.1) by lra.
  split; [exact H |].
  exact (C7_simulateStep_speed_nonneg 0.1
           (mkVehicleState 0 0 0 0 0 800 1 0 0) 0 1 H).
Defined.

(** ** Gear selection under the default parameters *)

Section GearSelection.

Variable dt : R.

Let engine : PhysicsEngine := mkPhysicsEngine default_params dt.

Lemma wheel_rpm_nonneg (v : R) : 0 <= v -> 0 <= wheel_rpm v.
Proof.
  intros Hv. unfold wheel_rpm.
  pose proof PI_RGT_0 as Hpi.
  apply Rmult_le_pos; [| left; apply Rinv_0_lt_compat; lra].
  apply Rmult_le_pos; [| lra].
  apply Rmult_le_pos; [lra | left; apply Rinv_0_lt_compat; lra].
Qed.

(** With [PI <= 4], a hundred metres per second turn the wheel at more than
    2343 revolutions per minute. *)
Lemma wheel_rpm_100 : 2343 < wheel_rpm 100.
Proof.
  unfold wheel_rpm.
  pose proof PI_RGT_0 as Hpi. pose proof PI_4 as Hpi4.
  apply Rmult_lt_reg_r with (r := 2.0 * PI); [lra |].
  unfold Rdiv at 1. rewrite Rmult_assoc, Rinv_l by lra.
  lra.
Qed.

Lemma calculateEngineRPM_default (v : R) (gear : Z) (ratio : R) :
  In (gear, ratio)
     [(1%Z, 3.54); (2%Z, 2.06); (3%Z, 1.36);
      (4%Z, 1.03); (5%Z, 0.84); (6%Z, 0.70)] ->
  calculateEngineRPM engine v gear = Ok (wheel_rpm v * ratio * 4.35).
Proof.
  intros Hin. simpl in Hin.
  assert (Hw : wheel_radius_m default_params <> 0) by (simpl; lra).
  repeat (destruct Hin as [Hin | Hin];
          [injection Hin as <- <-;
           unfold calculateEngineRPM, wheel_rpm;
           cbn [Z.ltb Z.gtb Z.compare Pos.compare Pos.compare_cont orb
                Z.sub Z.add Z.opp Z.pos_sub Pos.pred_double
                index Z.to_nat Pos.to_nat Pos.iter_op Nat.add
                nth_error gear_ratios params_ engine bind];
           rewrite (fdiv_ok v _ Hw); cbn [bind];
           rewrite (fdiv_ok _ _ two_PI_neq_0); cbn [bind]; reflexivity |]).
  contradiction.
Qed.

Ltac reflect_tests :=
  repeat match goal with
         | H : (_ >=? _) = true |- _ => apply Rgeb_true in H
         | H : (_ >=? _) = false |- _ => apply Rgeb_false in H
         | H : (_ <=? _) = true |- _ => apply Rleb_true in H
         | H : (_ <=? _) = false |- _ => apply Rleb_false in H
         end.

Ltac gear_test :=
  match goal with
  | |- context [if (?a >=? ?b) && (?c <=? ?d) then _ else _] =>
      destruct (a >=? b) eqn:?; [destruct (c <=? d) eqn:? |];
      cbn [andb bind];
      try match goal with
          | |- context [if ?x <=? ?y then _ else _] =>
              destruct (x <=? y) eqn:?
          end;
      reflect_tests; try (exfalso; lra)
  end.

Ltac pick_gear g r :=
  solve [exists g, r;
         split; [simpl; tauto | split; [reflexivity | split; [lra |]]];
         intros; first [reflexivity | exfalso; lra]].

Ltac gear_search :=
  first [ pick_gear 1%Z 3.54 | pick_gear 2%Z 2.06 | pick_gear 3%Z 1.36
        | pick_gear 4%Z 1.03 | pick_gear 5%Z 0.84 | pick_gear 6%Z 0.70
        | gear_test; gear_search ].

(** What the gear search returns when the target speed is the current
    speed, in terms of the wheel speed [w]: a gear of the table whose RPM is
    within 0.85 of the red line as soon as sixth gear's is, and first gear
    otherwise. *)
Lemma selectOptimalGear_same_speed (v : R) :
  0 <= v ->
  exists gear ratio,
    In (gear, ratio)
       [(1%Z, 3.54); (2%Z, 2.06); (3%Z, 1.36);
        (4%Z, 1.03); (5%Z, 0.84); (6%Z, 0.70)] /\
    selectOptimalGear engine v v = Ok gear /\
    (wheel_rpm v * 0.70 * 4.35 <= 5525 -> wheel_rpm v * ratio * 4.35 <= 5525) /\
    (5525 < wheel_rpm v * 0.70 * 4.35 -> gear = 1%Z).
Proof.
  intros Hv. apply wheel_rpm_nonneg in Hv.
  unfold selectOptimalGear. cbn [selectOptimalGear_loop].
  rewrite (calculateEngineRPM_default v 1 3.54) by (simpl; tauto).
  rewrite (calculateEngineRPM_default v 2 2.06) by (simpl; tauto).
  rewrite (calculateEngineRPM_default v 3 1.36) by (simpl; tauto).
  rewrite (calculateEngineRPM_default v 4 1.03) by (simpl; tauto).
  rewrite (calculateEngineRPM_default v 5 0.84) by (simpl; tauto).
  rewrite (calculateEngineRPM_default v 6 0.70) by (simpl; tauto).
  cbn [bind idle_rpm max_rpm params_ engine default_params].
  generalize dependent (wheel_rpm v). intros w Hw.
  gear_search.
Qed.

(** C6, as amended: for every non-negative speed [v] at which sixth gear
  turns the engine at no more than 0.85 of the red line, the gear that
  [selectOptimalGear v v] returns turns it at no more than 0.85 of the red
  line; at any faster speed no gear qualifies, the search falls back to
  first gear, and first gear exceeds that bound. *)
Theorem C6_selectOptimalGear_rpm_bound :
forall v : R,
  0 <= v ->
  exists gear rpm rpm6,
    selectOptimalGear engine v v = Ok gear /\
    calculateEngineRPM engine v gear = Ok rpm /\
    calculateEngineRPM engine v 6 = Ok rpm6 /\
    (rpm6 <= 0.85 * max_rpm default_params ->
     rpm <= 0.85 * max_rpm default_params) /\
    (0.85 * max_rpm default_params < rpm6 ->
     gear = 1%Z /\ 0.85 * max_rpm default_params < rpm).
Proof.
intros v Hv.
destruct (selectOptimalGear_same_speed v Hv)
  as (gear & ratio & Hin & Hsel & Hlow & Hhigh).
exists gear, (wheel_rpm v * ratio * 4.35), (wheel_rpm v * 0.70 * 4.35).
split; [exact Hsel |].
split; [apply calculateEngineRPM_default; exact Hin |].
split; [apply calculateEngineRPM_default; simpl; tauto |].
cbn [max_rpm default_params].
split.
- intros H6. assert (wheel_rpm v * 0.70 * 4.35 <= 5525) by lra.
  pose proof (Hlow H). lra.
- intros H6. assert (H : 5525 < wheel_rpm v * 0.70 * 4.35) by lra.
  specialize (Hhigh H). split; [exact Hhigh |].
  simpl in Hin. apply wheel_rpm_nonneg in Hv.
  repeat (destruct Hin as [Hin | Hin];
          [injection Hin as <- <-; first [discriminate Hhigh | lra] |]).
  contradiction.
Qed.

(** At 100 m/s every gear is above 0.85 of the red line, so the search
  returns its fallback, first gear, and the claim of C6 fails there. *)
Lemma selectOptimalGear_100 :
selectOptimalGear engine 100 100 = Ok 1%Z /\
calculateEngineRPM engine 100 1 = Ok (wheel_rpm 100 * 3.54 * 4.35) /\
0.85 * max_rpm default_params < wheel_rpm 100 * 3.54 * 4.35.
Proof.
pose proof wheel_rpm_100 as Hw.
assert (Hv : 0 <= 100) by lra.
destruct (selectOptimalGear_same_speed 100 Hv)
  as (gear & ratio & _ & Hsel & _ & Hhigh).
rewrite Hsel, Hhigh by lra.
split; [reflexivity |].
split; [apply calculateEngineRPM_default; simpl; tauto |].
cbn [max_rpm default_params]. lra.
Qed.

End GearSelection.

(** C6 as stated fails at [v = 100]: [selectOptimalGear 100 100] is first
    gear, at which the engine would turn far above 0.85 of the red line. *)
Lemma C6_counterexample :
  ~ (forall v : R,
       0 <= v ->
       forall gear rpm,
         selectOptimalGear default_engine v v = Ok gear ->
         calculateEngineRPM default_engine v gear = Ok rpm ->
         rpm <= 0.85 * max_rpm default_params).
Proof.
  intros Hclaim.
  destruct (selectOptimalGear_100 0.1) as (Hsel & Hrpm & Hgt).
  assert (Hv : 0 <= 100) by lra.
  pose proof (Hclaim 100 Hv 1%Z _ Hsel Hrpm). lra.
Qed.

(** At 10 m/s sixth gear is below the bound, and so is the selected gear. *)
Lemma C6_selectOptimalGear_rpm_bound_witness :
  0 <= 10 /\
  exists gear rpm rpm6,
    selectOptimalGear (mkPhysicsEngine default_params 0.1) 10 10 = Ok gear /\
    calculateEngineRPM (mkPhysicsEngine default_params 0.1) 10 gear = Ok rpm /\
    calculateEngineRPM (mkPhysicsEngine default_params 0.1) 10 6 = Ok rpm6 /\
    (rpm6 <= 0.85 * max_rpm default_params ->
     rpm <= 0.85 * max_rpm default_params) /\
    (0.85 * max_rpm default_params < rpm6 ->
     gear = 1%Z /\ 0.85 * max_rpm default_params < rpm).
Proof.
  assert (H : 0 <= 10) by lra.
  split; [exact H |].
  exact (C6_selectOptimalGear_rpm_bound 0.1 10 H).
Defined.

(** ** The estimator keeps what its constructor establishes *)

Section EstimatorInvariant.

Import Eigen Estimator EstimatorSpec.

Lemma vector5_entries (v : VectorXd) :
  length v = 5%nat -> exists a b c d e, v = [a; b; c; d; e].
Proof.
  intros H.
  do 5 (destruct v as [| ? v]; [discriminate H |]).
  destruct v; [| discriminate H].
  repeat eexists.
Qed.

Lemma vector2_entries (v : VectorXd) :
  length v = 2%nat -> exists a b, v = [a; b].
Proof.
  intros H.
  do 2 (destruct v as [| ? v]; [discriminate H |]).
  destruct v; [| discriminate H].
  repeat eexists.
Qed.

Lemma matrix55_entries (M : MatrixXd) :
  is_matrix 5 5 M ->
  exists p00 p01 p02 p03 p04 p10 p11 p12 p13 p14 p20 p21 p22 p23 p24
         p30 p31 p32 p33 p34 p40 p41 p42 p43 p44,
    M = [[p00; p01; p02; p03; p04];
         [p10; p11; p12; p13; p14];
         [p20; p21; p22; p23; p24];
         [p30; p31; p32; p33; p34];
         [p40; p41; p42; p43; p44]].
Proof.
  intros [Hlen Hrows].
  do 5 (destruct M as [| ? M]; [discriminate Hlen |]).
  destruct M; [| discriminate Hlen].
  repeat match goal with
         | H : Forall _ (_ :: _) |- _ => inversion H; subst; clear H
         end.
  repeat match goal with
         | H : length ?r = 5%nat |- _ =>
             destruct (vector5_entries r H) as (? & ? & ? & ? & ? & ->); clear H
         end.
  repeat eexists.
Qed.

Lemma is_matrix_55 (p00 p01 p02 p03 p04 p10 p11 p12 p13 p14 p20 p21 p22 p23 p24
                    p30 p31 p32 p33 p34 p40 p41 p42 p43 p44 : R) :
  is_matrix 5 5 [[p00; p01; p02; p03; p04];
                 [p10; p11; p12; p13; p14];
                 [p20; p21; p22; p23; p24];
                 [p30; p31; p32; p33; p34];
                 [p40; p41; p42; p43; p44]].
Proof. split; [reflexivity | repeat constructor]. Qed.

Lemma new_built (dt : R) : built (new dt).
Proof.
  unfold built, new. cbn.
  repeat split; try reflexivity; repeat constructor.
Qed.

Lemma setIdentity_55 (M : MatrixXd) :
  is_matrix 5 5 M -> setIdentity M = Identity 5 5.
Proof.
  intros HM.
  destruct (matrix55_entries M HM)
    as (? & ? & ? & ? & ? & ? & ? & ? & ? & ? & ? & ? & ? & ? & ? & ? & ? & ?
        & ? & ? & ? & ? & ? & ? & ? & ->).
  reflexivity.
Qed.

(** The Jacobian that [setDeltaT] and [predict] store. *)
Lemma transition_matrix (M : MatrixXd) (dt : R) :
  is_matrix 5 5 M ->
  mset (mset (setIdentity M) 0 2 dt) 1 3 dt = F_transition dt.
Proof. intros HM. rewrite (setIdentity_55 M HM). reflexivity. Qed.

Ltac open_estimator e :=
  destruct e as [dt0 sdim mdim F0 H0 Q0 R0 P0 x0];
  unfold built in *;
  cbn [state_dim_ meas_dim_ F_ H_ Q_ R_ P_ x_ dt_] in *.

Ltac run_setters :=
  cbv beta iota zeta
      delta [set_dt_ set_F_ set_P_ set_x_
             state_dim_ meas_dim_ F_ H_ Q_ R_ P_ x_ dt_].

Lemma init_built (s : VectorXd) (e : EKF) : built e -> built (snd (init s e)).
Proof.
  open_estimator e. intros He.
  pose proof He as (Hs & Hm & HF & HH & HQ & HR & HP & Hx).
  unfold init, size. run_setters.
  destruct (Z.of_nat (length s) =? sdim)%Z eqn:E; cbn [negb snd]; [| exact He].
  apply Z.eqb_eq in E. run_setters.
  rewrite (setIdentity_55 _ HP). destruct HF.
  repeat split; try assumption; try lia.
  cbn. repeat constructor.
Qed.

Lemma setDeltaT_built (dt : R) (e : EKF) : built e -> built (setDeltaT dt e).
Proof.
  open_estimator e.
  intros (Hs & Hm & HF & HH & HQ & HR & HP & Hx).
  unfold setDeltaT. run_setters.
  rewrite (transition_matrix _ _ HF). destruct HP.
  repeat split; try assumption. repeat constructor.
Qed.

(** The state and the covariance that [predict] stores, coefficient by
    coefficient of the state and as a product of matrices. *)
Lemma predict_stores (ax_body yaw_rate : R) (e : EKF) (x y vx vy yaw : R) :
  built e ->
  x_ e = [x; y; vx; vy; yaw] ->
  predict ax_body yaw_rate e
  = mkEKF (dt_ e) (state_dim_ e) (meas_dim_ e)
      (F_transition (dt_ e)) (H_ e) (Q_ e) (R_ e)
      (madd (mmul (mmul (F_transition (dt_ e)) (P_ e))
                  (transpose (F_transition (dt_ e))))
            Q_process)
      [x + vx * dt_ e + 0.5 * (ax_body * cos yaw) * dt_ e * dt_ e;
       y + vy * dt_ e + 0.5 * (ax_body * sin yaw) * dt_ e * dt_ e;
       vx + ax_body * cos yaw * dt_ e;
       vy + ax_body * sin yaw * dt_ e;
       wrap_below (wrap_above (yaw + yaw_rate * dt_ e))].
Proof.
  open_estimator e.
  intros (Hs & Hm & HF & HH & HQ & HR & HP & Hx) Ex. subst x0.
  unfold predict. run_setters.
  rewrite (transition_matrix _ _ HF), HQ.
  reflexivity.
Qed.

Lemma predict_built (ax_body yaw_rate : R) (e : EKF) :
  built e -> built (predict ax_body yaw_rate e).
Proof.
  intros He. pose proof He as (Hs & Hm & HF & HH & HQ & HR & HP & Hx).
  destruct (vector5_entries _ Hx) as (x & y & vx & vy & yaw & Ex).
  rewrite (predict_stores _ _ _ _ _ _ _ _ He Ex).
  destruct (matrix55_entries _ HP)
    as (? & ? & ? & ? & ? & ? & ? & ? & ? & ? & ? & ? & ? & ? & ? & ? & ? & ?
        & ? & ? & ? & ? & ? & ? & ? & ->).
  unfold built. cbn [state_dim_ meas_dim_ F_ H_ Q_ R_ P_ x_].
  destruct HF. repeat split; try assumption; repeat constructor.
Qed.


Lemma mmul_is_matrix (A B : MatrixXd) :
  is_matrix (rows A) (cols B) (mmul A B).
Proof.
  unfold is_matrix, mmul, rows. split.
  - apply length_map.
  - apply Forall_forall. intros row Hin.
    apply in_map_iff in Hin. destruct Hin as (r & <- & _).
    rewrite length_map, length_seq. reflexivity.
Qed.

Lemma map2_length {A B C : Type} (f : A -> B -> C) (l : list A) (l' : list B) :
  length (map2 f l l') = Nat.min (length l) (length l').
Proof.
  revert l'. induction l as [| a l IH]; intros [| b l']; simpl; auto.
Qed.

Lemma mmul_rows (A B : MatrixXd) : length (mmul A B) = length A.
Proof. apply length_map. Qed.

(** What [update] stores when the measurement has two components, with the
    Kalman gain [K = P * H^T * S^-1]. *)
Lemma update_stores (z : VectorXd) (e : EKF) :
  built e ->
  length z = 2%nat ->
  let K := mmul (mmul (P_ e) (transpose H_position))
                (inverse (innovation_covariance e)) in
  update z e
  = (Returned,
     mkEKF (dt_ e) (state_dim_ e) (meas_dim_ e) (F_ e) (H_ e) (Q_ e) (R_ e)
       (mmul (msub (Identity 5 5) (mmul K H_position)) (P_ e))
       (vadd (x_ e) (mvmul K (vsub z (mvmul H_position (x_ e)))))).
Proof.
  open_estimator e.
  intros (Hs & Hm & HF & HH & HQ & HR & HP & Hx) Hz. subst.
  unfold update, innovation_covariance, size. run_setters.
  rewrite Hz. reflexivity.
Qed.

Lemma update_built (z : VectorXd) (e : EKF) :
  built e -> built (snd (update z e)).
Proof.
  intros He.
  destruct (Nat.eq_dec (length z) 2) as [Hz | Hz].
  - rewrite (update_stores z e He Hz). cbn [snd].
    destruct He as (Hs & Hm & HF & HH & HQ & HR & HP & Hx).
    unfold built. cbn [state_dim_ meas_dim_ F_ H_ Q_ R_ P_ x_].
    repeat match goal with |- _ /\ _ => split end; try assumption.
    + destruct (matrix55_entries _ HP)
        as (? & ? & ? & ? & ? & ? & ? & ? & ? & ? & ? & ? & ? & ? & ? & ? & ?
            & ? & ? & ? & ? & ? & ? & ? & ? & ->).
      match goal with
      | |- is_matrix 5 5 (mmul ?A ?B) =>
          destruct (mmul_is_matrix A B) as [Hrows Hcols];
          split; [| exact Hcols]
      end.
      rewrite Hrows. unfold rows, msub.
      rewrite map2_length, !mmul_rows. reflexivity.
    + destruct (vector5_entries _ Hx) as (? & ? & ? & ? & ? & ->).
      destruct (matrix55_entries _ HP)
        as (? & ? & ? & ? & ? & ? & ? & ? & ? & ? & ? & ? & ? & ? & ? & ? & ?
            & ? & ? & ? & ? & ? & ? & ? & ? & ->).
      reflexivity.
  - unfold update, size.
    destruct He as (Hs & Hm & HF & HH & HQ & HR & HP & Hx).
    rewrite Hm.
    destruct (Z.of_nat (length z) =? 2)%Z eqn:E.
    + apply Z.eqb_eq in E. lia.
    + cbn [negb snd]. unfold built. tauto.
Qed.

End EstimatorInvariant.

(** ** The heading stays within a half turn of zero *)

Section Heading.

Import Eigen Estimator EstimatorSpec.

Lemma wrap_above_spec (a : R) :
  wrap_above a <= PI /\
  (- PI <= a -> - PI <= wrap_above a) /\
  exists k : Z, wrap_above a = a + IZR k * (2 * PI).
Proof.
  funelim (wrap_above a); pose proof PI_RGT_0 as Hpi.
  - (* one more turn is taken off *)
    match goal with
    | IH : _ /\ _ /\ _ |- _ => destruct IH as (Hle & Hge & k & Hk)
    end.
    split; [exact Hle |].
    split.
    + intros _. apply Hge. lra.
    + exists (k - 1)%Z. rewrite Hk, minus_IZR. lra.
  - (* the loop is over *)
    split; [lra |]. split; [tauto |].
    exists 0%Z. lra.
Qed.

Lemma wrap_below_spec (a : R) :
  - PI <= wrap_below a /\
  (a <= PI -> wrap_below a <= PI) /\
  exists k : Z, wrap_below a = a + IZR k * (2 * PI).
Proof.
  funelim (wrap_below a); pose proof PI_RGT_0 as Hpi.
  - match goal with
    | IH : _ /\ _ /\ _ |- _ => destruct IH as (Hge & Hle & k & Hk)
    end.
    split; [exact Hge |].
    split.
    + intros _. apply Hle. lra.
    + exists (k + 1)%Z. rewrite Hk, plus_IZR. lra.
  - split; [lra |]. split; [tauto |].
    exists 0%Z. lra.
Qed.

(** The two loops of [predict], one after the other, bring any angle into
    [-PI, PI] by whole turns. *)
Lemma wrap_loops_wrapped (a : R) : wrapped a (wrap_below (wrap_above a)).
Proof.
  destruct (wrap_above_spec a) as (Hle & _ & k1 & Hk1).
  destruct (wrap_below_spec (wrap_above a)) as (Hge & Hle' & k2 & Hk2).
  split; [split; [exact Hge | exact (Hle' Hle)] |].
  exists (k1 + k2)%Z. rewrite Hk2, Hk1, plus_IZR. lra.
Qed.

(** An angle that is already within [-PI, PI] is left as it is. *)
Lemma wrap_loops_fixed (a : R) :
  - PI <= a <= PI -> wrap_below (wrap_above a) = a.
Proof.
  intros [Hlo Hhi].
  assert (Ha : wrap_above a = a).
  { rewrite wrap_above_equation_1.
    destruct (Rgt_dec a PI); [lra | reflexivity]. }
  rewrite Ha. rewrite wrap_below_equation_1.
  destruct (Rlt_dec a (- PI)); [lra | reflexivity].
Qed.

End Heading.

(** ** The prediction step *)

Section Prediction.

Import Eigen Estimator EstimatorSpec.

(** C1: one call of [predict] replaces the state (x, y, vx, vy, yaw) by
    x + vx dt + 0.5 (a cos yaw) dt^2, y + vy dt + 0.5 (a sin yaw) dt^2,
    vx + a cos yaw dt, vy + a sin yaw dt and the wrapped yaw + yawRate dt,
    the rotation being by the yaw of before the call, and replaces the
    covariance P by F P F^T + Q, with F the identity but for dt at (0, 2) and
    (1, 3) and Q the process-noise diagonal. *)
Theorem C1_predict_motion_and_covariance :
  forall (e : EKF) (x y vx vy yaw forwardAccel yawRate : R),
    built e ->
    x_ e = [x; y; vx; vy; yaw] ->
    let dt := dt_ e in
    let e' := predict forwardAccel yawRate e in
    (exists yaw',
       state e'
       = [x + vx * dt + 0.5 * (forwardAccel * cos yaw) * dt ^ 2;
          y + vy * dt + 0.5 * (forwardAccel * sin yaw) * dt ^ 2;
          vx + forwardAccel * cos yaw * dt;
          vy + forwardAccel * sin yaw * dt;
          yaw'] /\
       wrapped (yaw + yawRate * dt) yaw') /\
    is_matrix 5 5 (P_ e') /\
    forall i j : nat,
      (i < 5)%nat -> (j < 5)%nat ->
      mcoeff (P_ e') i j = propagated dt (P_ e) i j.
Proof.
  intros e x y vx vy yaw a w He Ex dt e'.
  pose proof He as (Hs & Hm & HF & HH & HQ & HR & HP & Hx).
  subst e'. rewrite (predict_stores a w e x y vx vy yaw He Ex).
  fold dt. unfold state, F_transition. cbn [x_ P_].
  split.
  - exists (wrap_below (wrap_above (yaw + w * dt))).
    split; [| apply wrap_loops_wrapped].
    repeat (f_equal; try ring).
  - destruct (matrix55_entries _ HP)
      as (p00 & p01 & p02 & p03 & p04 & p10 & p11 & p12 & p13 & p14
          & p20 & p21 & p22 & p23 & p24 & p30 & p31 & p32 & p33 & p34
          & p40 & p41 & p42 & p43 & p44 & ->).
    split; [split; [reflexivity | repeat constructor] |].
    intros i j Hi Hj.
    do 5 (destruct i as [| i]; [
      do 5 (destruct j as [| j];
            [unfold propagated, Q_entry, F_entry; cbn; ring |]); lia |]).
    lia.
Qed.


(** C4, as amended: after any call of [predict] on an estimator, whatever
    the inputs, the stored yaw lies in the closed interval [-PI, PI]. *)
Theorem C4_predict_yaw_range :
  forall (e : EKF) (forwardAccel yawRate : R),
    built e ->
    - PI <= coeff (state (predict forwardAccel yawRate e)) 4 <= PI.
Proof.
  intros e a w He.
  pose proof He as (_ & _ & _ & _ & _ & _ & _ & Hx).
  destruct (vector5_entries _ Hx) as (x & y & vx & vy & yaw & Ex).
  rewrite (predict_stores a w e x y vx vy yaw He Ex).
  unfold state, coeff. cbn [x_ nth].
  apply wrap_loops_wrapped.
Qed.

(** The lower end is reached: an estimator initialised with a heading of
    [-PI] and predicted with a zero yaw rate keeps the heading [-PI]. *)
Lemma predict_keeps_minus_PI :
  let e := snd (init [0; 0; 0; 0; - PI] (new 0.1)) in
  built e /\ coeff (state (predict 0 0 e)) 4 = - PI.
Proof.
  intros e.
  assert (He : built e) by (apply init_built, new_built).
  split; [exact He |].
  assert (Ex : x_ e = [0; 0; 0; 0; - PI]) by reflexivity.
  rewrite (predict_stores 0 0 e 0 0 0 0 (- PI) He Ex).
  unfold state, coeff. cbn [x_ nth].
  pose proof PI_RGT_0 as Hpi.
  rewrite wrap_loops_fixed by lra. lra.
Qed.

End Prediction.

(** C4 as stated fails: the yaw after [predict] can be [-PI] itself, which is
    outside of the half-open interval (-PI, PI]. *)
Lemma C4_counterexample :
  exists e : Estimator.EKF,
    EstimatorSpec.built e /\
    ~ (- PI < Eigen.coeff (Estimator.state (Estimator.predict 0 0 e)) 4 <= PI).
Proof.
  destruct predict_keeps_minus_PI as [He Hyaw].
  eexists. split; [exact He |].
  rewrite Hyaw. lra.
Qed.

Lemma C4_predict_yaw_range_witness :
  EstimatorSpec.built (Estimator.new 0.1) /\
  - PI <= Eigen.coeff
            (Estimator.state (Estimator.predict 1 0.2 (Estimator.new 0.1))) 4
       <= PI.
Proof.
  pose proof (new_built 0.1) as H.
  split; [exact H |].
  exact (C4_predict_yaw_range (Estimator.new 0.1) 1 0.2 H).
Defined.

Lemma C1_predict_motion_and_covariance_witness :
  EstimatorSpec.built (Estimator.new 0.1) /\
  Estimator.x_ (Estimator.new 0.1) = [0; 0; 0; 0; 0] /\
  EstimatorSpec.is_matrix 5 5
    (Estimator.P_ (Estimator.predict 1 0.2 (Estimator.new 0.1))).
Proof.
  pose proof (new_built 0.1) as H.
  assert (Hx : Estimator.x_ (Estimator.new 0.1) = [0; 0; 0; 0; 0])
    by reflexivity.
  split; [exact H |]. split; [exact Hx |].
  exact (proj1 (proj2
    (C1_predict_motion_and_covariance
       (Estimator.new 0.1) 0 0 0 0 0 1 0.2 H Hx))).
Defined.

(** ** Initialisation and dimension errors *)

Section Initialisation.

Import Eigen Estimator EstimatorSpec.

(** C5: [update] with a measurement that has not 2 components, and [init]
    with a state that has not 5 components, throw, and leave the estimator,
    its state and its covariance included, exactly as it was. *)
Theorem C5_dimension_errors_leave_state :
  forall (e : EKF) (z s : VectorXd),
    built e ->
    length z <> 2%nat ->
    length s <> 5%nat ->
    update z e
    = (Thrown (runtime_error "EKF::update: wrong measurement size"), e) /\
    init s e = (Thrown (runtime_error "EKF::init: wrong state size"), e).
Proof.
  intros e z s (Hs & Hm & _) Hz Hlen.
  unfold update, init, size. rewrite Hs, Hm.
  destruct (Z.of_nat (length z) =? 2)%Z eqn:Ez;
    [apply Z.eqb_eq in Ez; lia |].
  destruct (Z.of_nat (length s) =? 5)%Z eqn:Es;
    [apply Z.eqb_eq in Es; lia |].
  split; reflexivity.
Qed.

Lemma init_covariance (M : MatrixXd) :
  is_matrix 5 5 M -> mscale (setIdentity M) 10.0 = P_initial.
Proof.
  intros HM. rewrite (setIdentity_55 M HM).
  unfold P_initial. cbn.
  repeat (f_equal; try lra).
Qed.

(** C9: for every 5-component vector [s], [init s] returns, [state] then
    returns exactly [s], and the stored covariance is 10 on the diagonal and
    0 elsewhere, whatever the estimator held before. *)
Theorem C9_init_then_state :
  forall (e : EKF) (s : VectorXd),
    built e ->
    length s = 5%nat ->
    exists e',
      init s e = (Returned, e') /\
      state e' = s /\
      P_ e' = P_initial.
Proof.
  intros e s (Hs & Hm & HF & HH & HQ & HR & HP & Hx) Hlen.
  unfold init, size. rewrite Hs, Hlen.
  cbn [Z.of_nat Z.eqb Pos.eqb negb Pos.of_succ_nat Pos.succ].
  eexists. split; [reflexivity |].
  unfold state, set_P_, set_x_. cbn [x_ P_].
  split; [reflexivity | apply init_covariance; exact HP].
Qed.

End Initialisation.

Lemma C5_dimension_errors_leave_state_witness :
  EstimatorSpec.built (Estimator.new 0.1) /\
  length [1; 2; 3] <> 2%nat /\
  length [1; 2; 3; 4] <> 5%nat /\
  Estimator.update [1; 2; 3] (Estimator.new 0.1)
  = (Estimator.Thrown
       (Estimator.runtime_error "EKF::update: wrong measurement size"),
     Estimator.new 0.1) /\
  Estimator.init [1; 2; 3; 4] (Estimator.new 0.1)
  = (Estimator.Thrown (Estimator.runtime_error "EKF::init: wrong state size"),
     Estimator.new 0.1).
Proof.
  pose proof (new_built 0.1) as H.
  assert (Hz : length [1; 2; 3] <> 2%nat) by (simpl; lia).
  assert (Hs : length [1; 2; 3; 4] <> 5%nat) by (simpl; lia).
  split; [exact H |]. split; [exact Hz |]. split; [exact Hs |].
  exact (C5_dimension_errors_leave_state
           (Estimator.new 0.1) [1; 2; 3] [1; 2; 3; 4] H Hz Hs).
Defined.

Lemma C9_init_then_state_witness :
  EstimatorSpec.built (Estimator.new 0.1) /\
  length [1; 2; 3; 4; 5] = 5%nat /\
  exists e',
    Estimator.init [1; 2; 3; 4; 5] (Estimator.new 0.1)
    = (Estimator.Returned, e') /\
    Estimator.state e' = [1; 2; 3; 4; 5] /\
    Estimator.P_ e' = EstimatorSpec.P_initial.
Proof.
  pose proof (new_built 0.1) as H.
  assert (Hs : length [1; 2; 3; 4; 5] = 5%nat) by reflexivity.
  split; [exact H |]. split; [exact Hs |].
  exact (C9_init_then_state (Estimator.new 0.1) [1; 2; 3; 4; 5] H Hs).
Defined.

(** ** The covariance stays symmetric and positive semi-definite *)

Section Covariance.

Import Eigen Estimator EstimatorSpec.

Ltac name_matrix55 HP :=
  destruct (matrix55_entries _ HP)
    as (p00 & p01 & p02 & p03 & p04 & p10 & p11 & p12 & p13 & p14
        & p20 & p21 & p22 & p23 & p24 & p30 & p31 & p32 & p33 & p34
        & p40 & p41 & p42 & p43 & p44 & EP).

(** A symmetric 5 by 5 matrix, by its upper triangle. *)
Lemma symmetric55_entries (M : MatrixXd) :
  is_matrix 5 5 M ->
  symmetric M ->
  exists p00 p01 p02 p03 p04 p11 p12 p13 p14 p22 p23 p24 p33 p34 p44,
    M = [[p00; p01; p02; p03; p04];
         [p01; p11; p12; p13; p14];
         [p02; p12; p22; p23; p24];
         [p03; p13; p23; p33; p34];
         [p04; p14; p24; p34; p44]].
Proof.
  intros HM Hsym. name_matrix55 HM. subst M.
  unfold symmetric in Hsym. cbn in Hsym.
  injection Hsym; intros; subst.
  repeat eexists.
Qed.

Lemma predict_symmetric (a w : R) (e : EKF) :
  built e -> symmetric (P_ e) -> symmetric (P_ (predict a w e)).
Proof.
  intros He Hsym.
  pose proof He as (_ & _ & _ & _ & _ & _ & HP & Hx).
  destruct (vector5_entries _ Hx) as (x & y & vx & vy & yaw & Ex).
  rewrite (predict_stores a w e x y vx vy yaw He Ex). cbn [P_].
  destruct (symmetric55_entries _ HP Hsym)
    as (p00 & p01 & p02 & p03 & p04 & p11 & p12 & p13 & p14
        & p22 & p23 & p24 & p33 & p34 & p44 & ->).
  unfold symmetric, F_transition. cbn.
  repeat (f_equal; try ring).
Qed.


Lemma predict_positive_semidefinite (a w : R) (e : EKF) :
  built e ->
  positive_semidefinite (P_ e) ->
  positive_semidefinite (P_ (predict a w e)).
Proof.
  intros He Hpsd.
  pose proof He as (_ & _ & _ & _ & _ & _ & HP & Hx).
  destruct (vector5_entries _ Hx) as (x & y & vx & vy & yaw & Ex).
  rewrite (predict_stores a w e x y vx vy yaw He Ex). cbn [P_].
  name_matrix55 HP. rewrite EP in *. clear EP.
  generalize (dt_ e). intros dt.
  intros v Hv. cbn in Hv.
  destruct (vector5_entries _ Hv) as (v0 & v1 & v2 & v3 & v4 & ->).
  specialize (Hpsd [v0; v1; v2 + dt * v0; v3 + dt * v1; v4] eq_refl).
  unfold F_transition. cbn in Hpsd |- *.
  match goal with
  | |- 0 <= ?L =>
      match type of Hpsd with
      | 0 <= ?Rhs =>
          replace L
            with (Rhs + (1 / 1000 * (v0 * v0) + 1 / 1000 * (v1 * v1)
                         + 5 / 100 * (v2 * v2) + 5 / 100 * (v3 * v3)
                         + 1 / 100 * (v4 * v4)))
            by ring
      end
  end.
  pose proof (Rle_0_sqr v0). pose proof (Rle_0_sqr v1).
  pose proof (Rle_0_sqr v2). pose proof (Rle_0_sqr v3).
  pose proof (Rle_0_sqr v4). unfold Rsqr in *.
  lra.
Qed.


Lemma H_position_entries :
  H_position = [[1; 0; 0; 0; 0]; [0; 1; 0; 0; 0]].
Proof. unfold H_position. repeat (f_equal; try lra). Qed.

(** The innovation covariance is the position block of [P], plus 3 on the
    diagonal. *)
Lemma innovation_covariance_entries (e : EKF)
      (p00 p01 p02 p03 p04 p10 p11 p12 p13 p14 p20 p21 p22 p23 p24
       p30 p31 p32 p33 p34 p40 p41 p42 p43 p44 : R) :
  built e ->
  P_ e = [[p00; p01; p02; p03; p04];
          [p10; p11; p12; p13; p14];
          [p20; p21; p22; p23; p24];
          [p30; p31; p32; p33; p34];
          [p40; p41; p42; p43; p44]] ->
  innovation_covariance e = [[p00 + 3; p01]; [p10; p11 + 3]].
Proof.
  intros (_ & _ & _ & HH & _ & HR & _ & _) EP.
  unfold innovation_covariance. rewrite HH, HR, EP.
  unfold H_position, R_measurement. cbn.
  repeat (f_equal; try lra).
Qed.

(** The inverse of a 2 by 2 matrix: its coefficients, named, and what holds
    of them when the determinant is not zero. *)
Lemma inverse_2x2 (a b c d : R) :
  exists i00 i01 i10 i11,
    inverse [[a; b]; [c; d]] = [[i00; i01]; [i10; i11]] /\
    (b = c -> i01 = i10) /\
    (a * d - b * c <> 0 ->
     a * i00 + b * i10 = 1 /\ a * i01 + b * i11 = 0 /\
     c * i00 + d * i10 = 0 /\ c * i01 + d * i11 = 1).
Proof.
  do 4 eexists. split; [cbn; reflexivity |]. split.
  - intros ->. ring.
  - intros Hdet.
    repeat split; field; intros E; apply Hdet; rewrite <- E; ring.
Qed.

(** A 2 by 2 matrix that has an inverse has a determinant that is not zero. *)
Lemma invertible_2x2_det (a b c d : R) :
  invertible [[a; b]; [c; d]] -> a * d - b * c <> 0.
Proof.
  intros (N & (Hlen & Hrows) & Hright & _) Hdet.
  cbn in Hlen, Hrows.
  do 2 (destruct N as [| ? N]; [discriminate Hlen |]).
  destruct N; [| discriminate Hlen].
  inversion Hrows as [| ? ? Hr0 Hrows']; subst.
  inversion Hrows' as [| ? ? Hr1 _]; subst.
  destruct (vector2_entries _ Hr0) as (n00 & n01 & ->).
  destruct (vector2_entries _ Hr1) as (n10 & n11 & ->).
  cbn in Hright. injection Hright as E00 E01 E10 E11.
  assert (X : (a * n00 + b * n10) * (c * n01 + d * n11)
              - (a * n01 + b * n11) * (c * n00 + d * n10)
              = (a * d - b * c) * (n00 * n11 - n01 * n10)) by ring.
  replace (a * n00 + b * n10) with 1 in X by lra.
  replace (c * n01 + d * n11) with 1 in X by lra.
  replace (a * n01 + b * n11) with 0 in X by lra.
  rewrite Hdet in X. lra.
Qed.


(** The covariance that [update] stores for a symmetric [P] and an invertible
    innovation covariance, with the coefficients of the inverse named. *)
Lemma update_covariance (z : VectorXd) (e : EKF)
      (p00 p01 p02 p03 p04 p11 p12 p13 p14 p22 p23 p24 p33 p34 p44 : R) :
  built e ->
  length z = 2%nat ->
  P_ e = [[p00; p01; p02; p03; p04];
          [p01; p11; p12; p13; p14];
          [p02; p12; p22; p23; p24];
          [p03; p13; p23; p33; p34];
          [p04; p14; p24; p34; p44]] ->
  invertible (innovation_covariance e) ->
  exists i00 i01 i11,
    P_ (snd (update z e))
    = mmul (msub (Identity 5 5)
                 (mmul (mmul (mmul (P_ e)
                                   (transpose [[1; 0; 0; 0; 0]; [0; 1; 0; 0; 0]]))
                             [[i00; i01]; [i01; i11]])
                       [[1; 0; 0; 0; 0]; [0; 1; 0; 0; 0]]))
           (P_ e) /\
    (p00 + 3) * i00 + p01 * i01 = 1 /\
    (p00 + 3) * i01 + p01 * i11 = 0 /\
    p01 * i00 + (p11 + 3) * i01 = 0 /\
    p01 * i01 + (p11 + 3) * i11 = 1.
Proof.
  intros He Hz EP Hinv.
  rewrite (update_stores z e He Hz). cbn [snd P_].
  rewrite (innovation_covariance_entries e _ _ _ _ _ _ _ _ _ _ _ _ _ _ _ _ _ _
             _ _ _ _ _ _ _ He EP) in *.
  apply invertible_2x2_det in Hinv.
  destruct (inverse_2x2 (p00 + 3) p01 p01 (p11 + 3))
    as (i00 & i01 & i10 & i11 & -> & Hsym & Hprod).
  rewrite <- (Hsym eq_refl) in *.
  destruct (Hprod Hinv) as (E1 & E2 & E3 & E4).
  exists i00, i01, i11.
  rewrite H_position_entries.
  repeat split; assumption.
Qed.

Lemma update_symmetric (z : VectorXd) (e : EKF) :
  built e ->
  symmetric (P_ e) ->
  invertible (innovation_covariance e) ->
  symmetric (P_ (snd (update z e))).
Proof.
  intros He Hsym Hinv.
  destruct (Nat.eq_dec (length z) 2) as [Hz | Hz].
  - pose proof He as (_ & _ & _ & _ & _ & _ & HP & _).
    destruct (symmetric55_entries _ HP Hsym)
      as (p00 & p01 & p02 & p03 & p04 & p11 & p12 & p13 & p14
          & p22 & p23 & p24 & p33 & p34 & p44 & EP).
    destruct (update_covariance z e _ _ _ _ _ _ _ _ _ _ _ _ _ _ _
                He Hz EP Hinv) as (i00 & i01 & i11 & -> & _).
    rewrite EP. unfold symmetric. cbn.
    repeat (f_equal; try ring).
  - pose proof He as (_ & Hm & _).
    unfold update, size. rewrite Hm.
    destruct (Z.of_nat (length z) =? 2)%Z eqn:E;
      [apply Z.eqb_eq in E; lia |].
    exact Hsym.
Qed.


(** The correction step in the form [w^T P w + u^T R u], where [u] is the
    innovation covariance's inverse applied to [H P v] and [w] is [v] less
    [H^T u]: the quadratic form of the stored covariance is a sum of two
    terms that are not negative. *)
Lemma update_positive_semidefinite (z : VectorXd) (e : EKF) :
  built e ->
  symmetric (P_ e) ->
  positive_semidefinite (P_ e) ->
  invertible (innovation_covariance e) ->
  positive_semidefinite (P_ (snd (update z e))).
Proof.
  intros He Hsym Hpsd Hinv.
  destruct (Nat.eq_dec (length z) 2) as [Hz | Hz].
  - pose proof He as (_ & _ & _ & _ & _ & _ & HP & _).
    destruct (symmetric55_entries _ HP Hsym)
      as (p00 & p01 & p02 & p03 & p04 & p11 & p12 & p13 & p14
          & p22 & p23 & p24 & p33 & p34 & p44 & EP).
    destruct (update_covariance z e _ _ _ _ _ _ _ _ _ _ _ _ _ _ _
                He Hz EP Hinv) as (i00 & i01 & i11 & -> & E1 & E2 & E3 & E4).
    rewrite EP in *. clear EP HP Hsym Hinv He.
    intros v Hv. cbn in Hv.
    destruct (vector5_entries _ Hv) as (v0 & v1 & v2 & v3 & v4 & ->).
    clear Hv.
    pose (g0 := p00 * v0 + p01 * v1 + p02 * v2 + p03 * v3 + p04 * v4).
    pose (g1 := p01 * v0 + p11 * v1 + p12 * v2 + p13 * v3 + p14 * v4).
    pose (u0 := i00 * g0 + i01 * g1).
    pose (u1 := i01 * g0 + i11 * g1).
    specialize (Hpsd [v0 - u0; v1 - u1; v2; v3; v4] eq_refl).
    assert (C0 : (p00 + 3) * u0 + p01 * u1 = g0).
    { replace ((p00 + 3) * u0 + p01 * u1)
        with (((p00 + 3) * i00 + p01 * i01) * g0
              + ((p00 + 3) * i01 + p01 * i11) * g1)
        by (unfold u0, u1; ring).
      rewrite E1, E2. ring. }
    assert (C1 : p01 * u0 + (p11 + 3) * u1 = g1).
    { replace (p01 * u0 + (p11 + 3) * u1)
        with ((p01 * i00 + (p11 + 3) * i01) * g0
              + (p01 * i01 + (p11 + 3) * i11) * g1)
        by (unfold u0, u1; ring).
      rewrite E3, E4. ring. }
    cbn in Hpsd |- *.
    match goal with
    | |- 0 <= ?L =>
        match type of Hpsd with
        | 0 <= ?W =>
            assert (HA : L = W + 3 * (u0 * u0 + u1 * u1)
                             + u0 * (g0 - ((p00 + 3) * u0 + p01 * u1))
                             + u1 * (g1 - (p01 * u0 + (p11 + 3) * u1)))
              by (unfold u0, u1, g0, g1; ring)
        end
    end.
    rewrite HA, C0, C1.
    pose proof (Rle_0_sqr u0). pose proof (Rle_0_sqr u1). unfold Rsqr in *.
    lra.
  - pose proof He as (_ & Hm & _).
    unfold update, size. rewrite Hm.
    destruct (Z.of_nat (length z) =? 2)%Z eqn:E;
      [apply Z.eqb_eq in E; lia |].
    exact Hpsd.
Qed.


(** The hypothesis on [S] is no restriction: for a symmetric positive
    semi-definite [P] the innovation covariance, [P]'s position block plus
    3 on the diagonal, always has an inverse. *)
Lemma innovation_covariance_invertible (e : EKF) :
  built e ->
  symmetric (P_ e) ->
  positive_semidefinite (P_ e) ->
  invertible (innovation_covariance e).
Proof.
  intros He Hsym Hpsd.
  pose proof He as (_ & _ & _ & _ & _ & _ & HP & _).
  destruct (symmetric55_entries _ HP Hsym)
    as (p00 & p01 & p02 & p03 & p04 & p11 & p12 & p13 & p14
        & p22 & p23 & p24 & p33 & p34 & p44 & EP).
  rewrite (innovation_covariance_entries e _ _ _ _ _ _ _ _ _ _ _ _ _ _ _ _ _ _
             _ _ _ _ _ _ _ He EP).
  rewrite EP in Hpsd.
  pose proof (Hpsd [0; 1; 0; 0; 0] eq_refl) as H11.
  pose proof (Hpsd [p11 + 3; - p01; 0; 0; 0] eq_refl) as Hq.
  cbn in H11, Hq.
  set (det := (p00 + 3) * (p11 + 3) - p01 * p01).
  assert (Hdet : det <> 0).
  { assert (Hid : (p11 + 3) * det
                  = (p11 + 3) * (p00 * (p11 + 3) + (p01 * - p01 + 0))
                    + - p01 * (p01 * (p11 + 3) + (p11 * - p01 + 0))
                    + 3 * (p01 * p01) + 3 * ((p11 + 3) * (p11 + 3)))
      by (unfold det; ring).
    intros Hzero. rewrite Hzero in Hid.
    pose proof (Rle_0_sqr p01) as S1. pose proof (Rle_0_sqr (p11 + 3)) as S2.
    unfold Rsqr in S1, S2.
    assert (0 < (p11 + 3) * (p11 + 3)) by nra.
    lra. }
  exists [[(p11 + 3) / det; - p01 / det]; [- p01 / det; (p00 + 3) / det]].
  split; [split; [reflexivity | repeat constructor] |].
  split; cbn; repeat (f_equal; try (unfold det in *; field; exact Hdet)).
Qed.

(** C2: if the stored covariance is symmetric and positive semi-definite,
    it is so again after any call of [predict], and after any call of
    [update] for which the innovation covariance [S = H P H^T + R] is
    invertible. *)
Theorem C2_covariance_symmetric_psd :
  forall e : EKF,
    built e ->
    symmetric (P_ e) ->
    positive_semidefinite (P_ e) ->
    (forall forwardAccel yawRate : R,
        symmetric (P_ (predict forwardAccel yawRate e)) /\
        positive_semidefinite (P_ (predict forwardAccel yawRate e))) /\
    (forall z : VectorXd,
        invertible (innovation_covariance e) ->
        symmetric (P_ (snd (update z e))) /\
        positive_semidefinite (P_ (snd (update z e)))).
Proof.
  intros e He Hsym Hpsd. split.
  - intros a w. split.
    + apply predict_symmetric; assumption.
    + apply predict_positive_semidefinite; assumption.
  - intros z Hinv. split.
    + apply update_symmetric; assumption.
    + apply update_positive_semidefinite; assumption.
Qed.

(** The covariance that the constructor stores is symmetric and positive
    semi-definite, and its innovation covariance, 13 on the diagonal, has an
    inverse. *)
Lemma new_symmetric (dt : R) : symmetric (P_ (new dt)).
Proof. reflexivity. Qed.

Lemma new_covariance (dt : R) : P_ (new dt) = P_initial.
Proof.
  change (P_ (new dt)) with (mscale (Identity 5 5) 10.0).
  unfold P_initial. cbn. repeat (f_equal; try lra).
Qed.

Lemma new_positive_semidefinite (dt : R) : positive_semidefinite (P_ (new dt)).
Proof.
  rewrite new_covariance.
  intros v Hv. cbn in Hv.
  destruct (vector5_entries _ Hv) as (v0 & v1 & v2 & v3 & v4 & ->).
  cbn. nra.
Qed.

Lemma new_invertible (dt : R) : invertible (innovation_covariance (new dt)).
Proof.
  unfold innovation_covariance. rewrite new_covariance.
  change (H_ (new dt)) with H_position.
  change (R_ (new dt)) with R_measurement.
  exists [[1 / 13; 0]; [0; 1 / 13]].
  split; [split; [reflexivity | repeat constructor] |].
  unfold H_position, R_measurement, P_initial.
  split; cbn; repeat (f_equal; try lra).
Qed.

End Covariance.

Lemma C2_covariance_symmetric_psd_witness :
  EstimatorSpec.built (Estimator.new 0.1) /\
  EstimatorSpec.symmetric (Estimator.P_ (Estimator.new 0.1)) /\
  EstimatorSpec.positive_semidefinite (Estimator.P_ (Estimator.new 0.1)) /\
  EstimatorSpec.invertible
    (EstimatorSpec.innovation_covariance (Estimator.new 0.1)) /\
  EstimatorSpec.positive_semidefinite
    (Estimator.P_ (Estimator.predict 1 0.2 (Estimator.new 0.1))) /\
  EstimatorSpec.positive_semidefinite
    (Estimator.P_ (snd (Estimator.update [1; 2] (Estimator.new 0.1)))).
Proof.
  pose proof (new_built 0.1) as Hb.
  pose proof (new_symmetric 0.1) as Hs.
  pose proof (new_positive_semidefinite 0.1) as Hp.
  pose proof (new_invertible 0.1) as Hi.
  pose proof (C2_covariance_symmetric_psd (Estimator.new 0.1) Hb Hs Hp)
    as [Hpredict Hupdate].
  split; [exact Hb |]. split; [exact Hs |]. split; [exact Hp |].
  split; [exact Hi |].
  split; [exact (proj2 (Hpredict 1 0.2)) | exact (proj2 (Hupdate [1; 2] Hi))].
Defined.

(** ** More on the dynamics engine *)

Section EngineMore.

Variable self : PhysicsEngine.

(** The gear search always ends on one of the six gears, whatever the two
    speeds are. *)
Theorem selectOptimalGear_in_range :
  forall speed target : R,
    nondegenerate (params_ self) ->
    exists gear, selectOptimalGear self speed target = Ok gear /\
                 (1 <= gear <= 6)%Z.
Proof. intros speed target Hnd. apply selectOptimalGear_total. exact Hnd. Qed.

(** The torque lies between 0.2 and 1.0 of the peak torque, scaled by the
    throttle. *)
Theorem calculateEngineTorque_bounds :
  forall rpm throttle : R,
    max_rpm (params_ self) <> 0 ->
    0 <= max_torque_nm (params_ self) ->
    0 <= throttle ->
    exists t,
      calculateEngineTorque self rpm throttle = Ok t /\
      0.2 * max_torque_nm (params_ self) * (throttle / 100) <= t
      <= max_torque_nm (params_ self) * (throttle / 100).
Proof.
  intros rpm throttle Hmax Hpeak Hthr.
  unfold calculateEngineTorque.
  match goal with
  | |- exists t, bind ?m _ = _ /\ _ =>
      assert (Hratio : exists r, m = Ok r); [| destruct Hratio as [r ->]]
  end.
  - destruct (rpm <? idle_rpm _) eqn:E1; [eauto |].
    destruct (rpm <? optimal_rpm _) eqn:E2.
    + apply Rltb_false in E1. apply Rltb_true in E2.
      rewrite fdiv_ok by lra. cbn [bind]. eauto.
    + destruct (rpm <? max_rpm _ * 0.8); [eauto |].
      rewrite fdiv_ok by lra. cbn [bind]. eauto.
  - cbn [bind]. eexists. split; [reflexivity |].
    pose proof (clamp_bounds 0.2 1.0 r) as Hc.
    assert (Hlim : 0.2 <= 1.0) by lra. specialize (Hc Hlim).
    set (c := Std.max 0.2 (Std.min 1.0 r)) in *.
    assert (Ht : 0 <= throttle / 100) by lra.
    set (u := throttle / 100) in *. set (T := max_torque_nm (params_ self)) in *.
    replace (throttle / 100.0) with u by (unfold u; lra).
    assert (Hw : 0 <= T * u) by (apply Rmult_le_pos; assumption).
    replace (T * c * u) with (c * (T * u)) by ring.
    replace (0.2 * T * u) with (0.2 * (T * u)) by lra.
    split; nra.
Qed.

(** Negative speeds count as standstill: the controller gives what it gives
    for the speeds raised to zero. *)
Theorem calculateAcceleration_negative_speeds :
  forall current target grade distance : R,
    calculateAcceleration self current target grade distance
    = calculateAcceleration self (Rmax 0 current) (Rmax 0 target)
        grade distance.
Proof.
  intros v t g d. unfold calculateAcceleration.
  rewrite !clamp_speed_Rmax.
  rewrite !(Rmax_right 0 (Rmax 0 _)) by apply Rmax_l.
  reflexivity.
Qed.

End EngineMore.

Lemma selectOptimalGear_in_range_witness :
  nondegenerate (params_ default_engine) /\
  exists gear, selectOptimalGear default_engine 12 20 = Ok gear /\
               (1 <= gear <= 6)%Z.
Proof.
  pose proof default_params_nondegenerate as H.
  split; [exact H |].
  exact (selectOptimalGear_in_range default_engine 12 20 H).
Defined.

Lemma calculateEngineTorque_bounds_witness :
  max_rpm (params_ default_engine) <> 0 /\
  0 <= max_torque_nm (params_ default_engine) /\
  0 <= 50 /\
  exists t,
    calculateEngineTorque default_engine 3000 50 = Ok t /\
    0.2 * max_torque_nm (params_ default_engine) * (50 / 100) <= t
    <= max_torque_nm (params_ default_engine) * (50 / 100).
Proof.
  assert (H1 : max_rpm (params_ default_engine) <> 0) by (simpl; lra).
  assert (H2 : 0 <= max_torque_nm (params_ default_engine)) by (simpl; lra).
  assert (H3 : 0 <= 50) by lra.
  split; [exact H1 |]. split; [exact H2 |]. split; [exact H3 |].
  exact (calculateEngineTorque_bounds default_engine 3000 50 H1 H2 H3).
Defined.

(** ** More on the engine under the default parameters *)

Section DefaultEngineMore.

Variable dt : R.

Let engine : PhysicsEngine := mkPhysicsEngine default_params dt.

Lemma wheel_rpm_pos (v : R) : 0 < v -> 0 < wheel_rpm v.
Proof.
  intros Hv. unfold wheel_rpm.
  pose proof PI_RGT_0 as Hpi.
  apply Rmult_lt_0_compat; [| apply Rinv_0_lt_compat; lra].
  apply Rmult_lt_0_compat; [| lra].
  apply Rmult_lt_0_compat; [lra | apply Rinv_0_lt_compat; lra].
Qed.

Lemma wheel_rpm_0 : wheel_rpm 0 = 0.
Proof. unfold wheel_rpm. unfold Rdiv. rewrite !Rmult_0_l. reflexivity. Qed.

Ltac gear_of_table :=
  unfold engine; apply calculateEngineRPM_default; simpl;
  repeat (first [left; reflexivity | right]).

(** At a given positive speed, a higher gear turns the engine more slowly. *)
Theorem calculateEngineRPM_decreases_with_gear :
  forall (v : R) (gear gear' : Z),
    0 < v ->
    (1 <= gear)%Z -> (gear < gear')%Z -> (gear' <= 6)%Z ->
    exists rpm rpm',
      calculateEngineRPM engine v gear = Ok rpm /\
      calculateEngineRPM engine v gear' = Ok rpm' /\
      rpm' < rpm.
Proof.
  intros v g g' Hv H1 Hlt H6.
  apply wheel_rpm_pos in Hv.
  assert (Hg : (g = 1 \/ g = 2 \/ g = 3 \/ g = 4 \/ g = 5)%Z) by lia.
  assert (Hg' : (g' = 2 \/ g' = 3 \/ g' = 4 \/ g' = 5 \/ g' = 6)%Z) by lia.
  repeat (destruct Hg as [Hg | Hg]; try subst g);
    repeat (destruct Hg' as [Hg' | Hg']; try subst g');
    try lia;
    (eexists; eexists;
     split; [gear_of_table | split; [gear_of_table | lra]]).
Qed.

(** Braking on a road that does not descend: when the target is more than
    0.1 below the current speed and the grade has a sine that is not
    negative, the acceleration is strictly negative. *)
Theorem calculateAcceleration_brake_negative :
  forall current target grade distance : R,
    Rmax 0 target - Rmax 0 current < - 0.1 ->
    0 <= sin grade ->
    exists a,
      calculateAcceleration engine current target grade distance = Ok a /\
      - 6 <= a < 0.
Proof.
  intros v t g d Herr Hsin.
  unfold calculateAcceleration. rewrite !clamp_speed_Rmax.
  assert (Hcur : 0 <= Rmax 0 v) by apply Rmax_l.
  set (cur := Rmax 0 v) in *. set (tgt := Rmax 0 t) in *.
  assert (Ha : (tgt - cur >? 0.1) = false) by (apply Rgtb_false; lra).
  assert (Hb : (tgt - cur <? - 0.1) = true) by (apply Rltb_true; lra).
  rewrite Ha, Hb. cbn [bind].
  rewrite fdiv_ok by (simpl; lra). cbn [bind].
  eexists. split; [reflexivity |].
  unfold calculateBrakeForce, calculateDragForce, calculateRollingResistance,
    calculateGradeResistance.
  cbn [params_ engine default_params mass_kg max_brake_force_n air_density
       drag_coefficient frontal_area_m2 rolling_resistance gravity_ms2].
  match goal with
  | |- context [Std.max 0.0 (Std.min 100.0 ?x)] =>
      pose proof (clamp_bounds 0.0 100.0 x) as Hbp;
      set (bp := Std.max 0.0 (Std.min 100.0 x)) in *
  end.
  assert (H100 : 0.0 <= 100.0) by lra. specialize (Hbp H100).
  clearbody bp.
  pose proof (Rle_0_sqr cur) as Hsq. unfold Rsqr in Hsq.
  replace (0.5 * 1.225 * 0.28 * 2.1 * cur * cur)
    with (0.5 * 1.225 * 0.28 * 2.1 * (cur * cur)) by ring.
  set (sq := cur * cur) in *. clearbody sq.
  rewrite !std_max_Rmax, !std_min_Rmin.
  match goal with
  | |- context [Rmin _ (Rmax ?x ?y / _)] =>
      assert (HX : x < 0) by lra; set (X := x) in *; clearbody X;
      assert (HN : Rmax X y < 0)
        by (unfold Rmax; destruct (Rle_dec _ _); lra);
      set (N := Rmax X y) in *; clearbody N
  end.
  match goal with
  | |- context [Rmin ?x ?y] =>
      assert (HB : Rmin x y < 0)
        by (unfold Rmin; destruct (Rle_dec _ _); lra);
      set (B := Rmin x y) in *; clearbody B
  end.
  unfold Rmax; destruct (Rle_dec _ _); lra.
Qed.


(** While first gear is below idle every gear is, so the search falls back to
    first gear. *)
Lemma selectOptimalGear_below_idle (v target : R) :
  0 <= v ->
  wheel_rpm v * 3.54 * 4.35 < 800 ->
  selectOptimalGear engine v target = Ok 1%Z.
Proof.
  intros Hv Hidle. apply wheel_rpm_nonneg in Hv.
  unfold selectOptimalGear, engine. cbn [selectOptimalGear_loop].
  rewrite (calculateEngineRPM_default dt v 1 3.54) by (simpl; tauto).
  rewrite (calculateEngineRPM_default dt v 2 2.06) by (simpl; tauto).
  rewrite (calculateEngineRPM_default dt v 3 1.36) by (simpl; tauto).
  rewrite (calculateEngineRPM_default dt v 4 1.03) by (simpl; tauto).
  rewrite (calculateEngineRPM_default dt v 5 0.84) by (simpl; tauto).
  rewrite (calculateEngineRPM_default dt v 6 0.70) by (simpl; tauto).
  cbn [bind idle_rpm max_rpm params_ default_params].
  set (w := wheel_rpm v) in *. clearbody w.
  rewrite !(proj2 (Rgeb_false _ _)) by lra.
  reflexivity.
Qed.

(** The wheel force in first gear below idle: 0.3 of the peak torque, scaled
    by the throttle, through first gear and the final drive. *)
Lemma calculateEngineForce_below_idle (v throttle : R) :
  wheel_rpm v * 3.54 * 4.35 < 800 ->
  calculateEngineForce engine v throttle 1
  = Ok (220.0 * 0.3 * (throttle / 100.0) * (3.54 * 4.35) / 0.32).
Proof.
  intros Hidle.
  unfold calculateEngineForce, engine.
  rewrite (calculateEngineRPM_default dt v 1 3.54) by (simpl; tauto).
  cbn [bind].
  unfold calculateEngineTorque.
  cbn [idle_rpm max_rpm optimal_rpm max_torque_nm params_ default_params].
  rewrite (proj2 (Rltb_true _ _)) by lra. cbn [bind].
  assert (Hclamp : Std.max 0.2 (Std.min 1.0 0.3) = 0.3).
  { rewrite std_max_Rmax, std_min_Rmin. unfold Rmax, Rmin.
    destruct (Rle_dec 1.0 0.3); [lra |].
    destruct (Rle_dec 0.2 0.3); lra. }
  rewrite Hclamp.
  cbn [Z.sub Z.add Z.opp Z.pos_sub index Z.ltb Z.compare Z.to_nat
       nth_error gear_ratios final_drive_ratio wheel_radius_m
       params_ default_params bind].
  rewrite fdiv_ok by lra. reflexivity.
Qed.

(** Below 0.3 m/s first gear is far below idle. *)
Lemma crawl_below_idle (v : R) :
  0 <= v < 0.3 -> wheel_rpm v * 3.54 * 4.35 < 800.
Proof.
  intros [Hlo Hhi].
  assert (Hw : wheel_rpm v <= 10).
  { unfold wheel_rpm. pose proof PI2_3_2 as Hpi.
    apply Rmult_le_reg_r with (r := 2.0 * PI); [lra |].
    unfold Rdiv at 1. rewrite Rmult_assoc, Rinv_l by lra. lra. }
  lra.
Qed.

(** Pulling away: below 0.3 m/s, with a target more than 0.1 m/s above the
    speed and a road that does not climb, the acceleration is strictly
    positive and below 0.8 m/s^2. *)
Lemma calculateAcceleration_crawl (cur target grade distance : R) :
  0 <= cur < 0.3 ->
  0.1 < target - cur ->
  sin grade <= 0 ->
  exists a,
    calculateAcceleration engine cur target grade distance = Ok a /\
    0 < a <= 0.8.
Proof.
  intros Hcur Ht Hsin.
  pose proof (crawl_below_idle cur Hcur) as Hidle.
  unfold calculateAcceleration. rewrite !clamp_speed_Rmax.
  rewrite (Rmax_right 0 cur) by lra. rewrite (Rmax_right 0 target) by lra.
  assert (Ha : (target - cur >? 0.1) = true) by (apply Rgtb_true; lra).
  assert (Hslow : (cur <? 3.0) = true) by (apply Rltb_true; lra).
  rewrite Ha, Hslow.
  rewrite selectOptimalGear_below_idle by lra. cbn [bind].
  rewrite calculateEngineForce_below_idle by exact Hidle. cbn [bind].
  rewrite fdiv_ok by (simpl; lra). cbn [bind].
  rewrite fdiv_ok by (simpl; lra). cbn [bind].
  eexists. split; [reflexivity |].
  unfold calculateDragForce, calculateRollingResistance,
    calculateGradeResistance.
  cbn [params_ engine default_params mass_kg air_density
       drag_coefficient frontal_area_m2 rolling_resistance gravity_ms2].
  rewrite !std_max_Rmax, !std_min_Rmin.
  assert (Hdes : 0.025 < Rmax (- 6.0) (Rmin 4.0 (0.25 * (target - cur))) <= 4).
  { unfold Rmin. destruct (Rle_dec 4.0 _);
      unfold Rmax; destruct (Rle_dec (- 6.0) _); lra. }
  set (des := Rmax (- 6.0) (Rmin 4.0 (0.25 * (target - cur)))) in *.
  clearbody des.
  assert (Hthr : 8.5 < Rmin (Rmax 0.0 (Rmin 100.0 (des * 20.0 + 8.0))) 35.0
                 <= 35).
  { rewrite (Rmin_right 100.0) by lra. rewrite (Rmax_right 0.0) by lra.
    unfold Rmin. destruct (Rle_dec _ 35.0); lra. }
  set (thr := Rmin (Rmax 0.0 (Rmin 100.0 (des * 20.0 + 8.0))) 35.0) in *.
  clearbody thr.
  set (s := sin grade) in *. clearbody s.
  set (ef := 220.0 * 0.3 * (thr / 100.0) * (3.54 * 4.35) / 0.32).
  assert (Hef : 269 < ef <= 1112) by (unfold ef; lra).
  clearbody ef.
  assert (Hcap : (ef / 1400.0 >? 4.0) = false) by (apply Rgtb_false; lra).
  rewrite Hcap.
  assert (Hsq : 0 <= cur * cur <= 0.09) by nra.
  replace (0.5 * 1.225 * 0.28 * 2.1 * cur * cur)
    with (0.5 * 1.225 * 0.28 * 2.1 * (cur * cur)) by ring.
  set (sq := cur * cur) in *. clearbody sq.
  match goal with
  | |- context [Rmin 4.0 (Rmin ?x ?y / _)] =>
      assert (Hnet : 0 < Rmin x y <= 1112)
        by (unfold Rmin; destruct (Rle_dec _ _); lra);
      set (net := Rmin x y) in *; clearbody net
  end.
  rewrite (Rmin_right 4.0) by lra. rewrite (Rmax_right (- 6.0)) by lra.
  lra.
Qed.

(** Starting off: from standstill, with a target more than 0.1 m/s and a
    road that does not climb, the acceleration is strictly positive, and the
    low-speed throttle cap keeps it below 0.8 m/s^2. *)
Theorem calculateAcceleration_from_standstill :
  forall current target grade distance : R,
    current <= 0 ->
    0.1 < target ->
    sin grade <= 0 ->
    exists a,
      calculateAcceleration engine current target grade distance = Ok a /\
      0 < a <= 0.8.
Proof.
  intros v t g d Hv Ht Hsin.
  assert (Hclamp : calculateAcceleration engine v t g d
                   = calculateAcceleration engine 0 t g d).
  { unfold calculateAcceleration. rewrite !clamp_speed_Rmax.
    rewrite (Rmax_left 0 v) by lra. rewrite (Rmax_left 0 0) by lra.
    reflexivity. }
  rewrite Hclamp. apply calculateAcceleration_crawl; lra.
Qed.

(** What one step stores, with the bounds of the acceleration. *)
Lemma simulateStep_bounded_acceleration (st : VehicleState) (target distance : R) :
  exists a,
    - 6 <= a <= 4 /\
    calculateAcceleration engine (speed_ms st) target (grade_rad st) distance
    = Ok a /\
    simulateStep engine st target distance
    = Ok (set_position_m
            (set_speed_ms (set_acceleration_ms2 st a)
               (Std.max 0.0 (speed_ms st + a * dt)))
            (position_m st + (speed_ms st * dt + 0.5 * a * dt * dt))).
Proof.
  destruct (calculateAcceleration_total_bounded engine
              default_params_nondegenerate
              (speed_ms st) target (grade_rad st) distance) as (a & Ha & Hb).
  exists a. split; [exact Hb |]. split; [exact Ha |].
  unfold simulateStep. rewrite Ha. reflexivity.
Qed.

(** One step changes a speed that is not negative by at most 6 dt downwards
    and 4 dt upwards, and stores an acceleration within [-6, 4]. *)
Theorem simulateStep_speed_change_bounded :
  forall (st : VehicleState) (target distance : R),
    0 <= dt ->
    0 <= speed_ms st ->
    exists st',
      simulateStep engine st target distance = Ok st' /\
      - 6 <= acceleration_ms2 st' <= 4 /\
      speed_ms st - 6 * dt <= speed_ms st' <= speed_ms st + 4 * dt.
Proof.
  intros st target distance Hdt Hv.
  destruct (simulateStep_bounded_acceleration st target distance)
    as (a & Ha & _ & ->).
  eexists. split; [reflexivity |].
  cbn [speed_ms acceleration_ms2 set_position_m set_speed_ms
       set_acceleration_ms2].
  split; [exact Ha |].
  rewrite std_max_Rmax. unfold Rmax.
  destruct (Rle_dec 0.0 (speed_ms st + a * dt)); nra.
Qed.

Lemma calculateAcceleration_cruise (v target grade distance : R) :
  Rabs (Rmax 0 target - Rmax 0 v) <= 0.1 ->
  calculateAcceleration engine v target grade distance = Ok 0.
Proof.
  intros Herr.
  unfold calculateAcceleration. rewrite !clamp_speed_Rmax.
  set (e := Rmax 0 target - Rmax 0 v) in *.
  assert (He : - 0.1 <= e <= 0.1)
    by (unfold Rabs in Herr; destruct (Rcase_abs e); lra).
  rewrite (proj2 (Rgtb_false e 0.1)) by lra.
  rewrite (proj2 (Rltb_false e (- 0.1))) by lra.
  cbn [bind]. rewrite fdiv_ok by (simpl; lra). cbn [bind]. f_equal.
  rewrite std_max_Rmax, std_min_Rmin. unfold Rmax, Rmin. simpl.
  destruct (Rle_dec 4.0 _); destruct (Rle_dec (- 6.0) _); lra.
Qed.

(** Holding speed: a step taken within 0.1 m/s of the target keeps the speed,
    stores a zero acceleration and moves the vehicle by speed times dt. *)
Theorem simulateStep_cruise :
  forall (st : VehicleState) (target distance : R),
    0 <= speed_ms st ->
    Rabs (Rmax 0 target - speed_ms st) <= 0.1 ->
    exists st',
      simulateStep engine st target distance = Ok st' /\
      speed_ms st' = speed_ms st /\
      acceleration_ms2 st' = 0 /\
      position_m st' = position_m st + speed_ms st * dt.
Proof.
  intros st target distance Hv Herr.
  assert (Ha : calculateAcceleration engine (speed_ms st) target
                 (grade_rad st) distance = Ok 0).
  { apply calculateAcceleration_cruise.
    rewrite (Rmax_right 0 (speed_ms st)) by exact Hv. exact Herr. }
  unfold simulateStep. rewrite Ha. cbn [bind].
  eexists. split; [reflexivity |].
  cbn [speed_ms acceleration_ms2 position_m set_position_m set_speed_ms
       set_acceleration_ms2 dt_ engine].
  rewrite std_max_Rmax. unfold Rmax.
  destruct (Rle_dec 0.0 (speed_ms st + 0 * dt)); repeat split; lra.
Qed.

(** The two shift tests leave a band between them: no engine speed asks for
    an upshift and a downshift at once. *)
Theorem shift_tests_exclusive :
  forall rpm speed : R,
    shouldUpshift engine rpm speed = true ->
    shouldDownshift engine rpm speed = false.
Proof.
  intros rpm speed Hup.
  unfold shouldUpshift, shouldDownshift in *.
  cbn [optimal_rpm idle_rpm params_ engine default_params] in *.
  apply andb_true_iff in Hup. destruct Hup as [Hrpm _].
  apply Rgtb_true in Hrpm.
  apply andb_false_iff. left. apply Rltb_false. lra.
Qed.

(** Braking below 0.3 m/s on a road that does not climb is gentle. *)
Lemma calculateAcceleration_brake_crawl (cur target grade distance : R) :
  0 <= cur < 0.3 ->
  Rmax 0 target - cur < - 0.1 ->
  sin grade <= 0 ->
  exists a,
    calculateAcceleration engine cur target grade distance = Ok a /\
    - 0.2 <= a.
Proof.
  intros Hcur Herr Hsin.
  assert (Htgt : 0 <= Rmax 0 target) by apply Rmax_l.
  unfold calculateAcceleration. rewrite !clamp_speed_Rmax.
  rewrite (Rmax_right 0 cur) by lra.
  set (tgt := Rmax 0 target) in *. clearbody tgt.
  rewrite (proj2 (Rgtb_false (tgt - cur) 0.1)) by lra.
  rewrite (proj2 (Rltb_true (tgt - cur) (- 0.1))) by lra.
  cbn [bind]. rewrite fdiv_ok by (simpl; lra). cbn [bind].
  eexists. split; [reflexivity |].
  unfold calculateBrakeForce, calculateDragForce, calculateRollingResistance,
    calculateGradeResistance.
  cbn [params_ engine default_params mass_kg max_brake_force_n air_density
       drag_coefficient frontal_area_m2 rolling_resistance gravity_ms2].
  rewrite !std_max_Rmax, !std_min_Rmin.
  assert (Hdes : - 0.075 <= Rmax (- 6.0) (Rmin 4.0 (0.25 * (tgt - cur)))
                 <= 0).
  { unfold Rmin. destruct (Rle_dec 4.0 _);
      unfold Rmax; destruct (Rle_dec (- 6.0) _); lra. }
  set (des := Rmax (- 6.0) (Rmin 4.0 (0.25 * (tgt - cur)))) in *.
  clearbody des.
  assert (Hbp : 0 <= Rmax 0.0 (Rmin 100.0 (- des * 8.0)) <= 0.6).
  { rewrite (Rmin_right 100.0) by lra. rewrite (Rmax_right 0.0) by lra. lra. }
  set (bp := Rmax 0.0 (Rmin 100.0 (- des * 8.0))) in *. clearbody bp.
  assert (Hsq : 0 <= cur * cur <= 0.09) by nra.
  replace (0.5 * 1.225 * 0.28 * 2.1 * cur * cur)
    with (0.5 * 1.225 * 0.28 * 2.1 * (cur * cur)) by ring.
  set (sq := cur * cur) in *. clearbody sq.
  set (s := sin grade) in *. clearbody s.
  match goal with
  | |- context [Rmin _ (Rmax ?x ?y / _)] =>
      assert (HN : - 220 <= Rmax x y)
        by (unfold Rmax; destruct (Rle_dec _ _); lra);
      set (N := Rmax x y) in *; clearbody N
  end.
  match goal with
  | |- context [Rmin ?x ?y] =>
      assert (HB : - 0.2 <= Rmin x y)
        by (unfold Rmin; destruct (Rle_dec _ _); lra);
      set (B := Rmin x y) in *; clearbody B
  end.
  unfold Rmax; destruct (Rle_dec _ _); lra.
Qed.

(** With a step of at most a tenth of a second, on a road that does not
    climb, a vehicle that is not moving backwards is never moved backwards. *)
Theorem simulateStep_position_nondecreasing :
  forall (st : VehicleState) (target distance : R),
    0 <= dt <= 0.1 ->
    0 <= speed_ms st ->
    sin (grade_rad st) <= 0 ->
    exists st',
      simulateStep engine st target distance = Ok st' /\
      position_m st <= position_m st'.
Proof.
  intros st target distance Hdt Hv Hsin.
  destruct (simulateStep_bounded_acceleration st target distance)
    as (a & Ha & Hacc & ->).
  eexists. split; [reflexivity |].
  cbn [position_m set_position_m].
  set (v := speed_ms st) in *.
  assert (Hgoal : 0 <= v + 0.5 * a * dt);
    [| replace (v * dt + 0.5 * a * dt * dt) with (dt * (v + 0.5 * a * dt))
         by ring; nra].
  destruct (Rlt_dec v 0.3) as [Hslow | Hfast]; [| nra].
  assert (Hmode : 0.1 < target - v \/ Rabs (Rmax 0 target - Rmax 0 v) <= 0.1
                  \/ Rmax 0 target - v < - 0.1).
  { rewrite (Rmax_right 0 v) by lra.
    unfold Rabs. destruct (Rcase_abs _);
      unfold Rmax in *; destruct (Rle_dec 0 target); lra. }
  destruct Hmode as [Hup | [Hhold | Hdown]].
  - destruct (calculateAcceleration_crawl v target (grade_rad st) distance)
      as (a' & Ha' & Hpos); [lra | lra | exact Hsin |].
    rewrite Hacc in Ha'. injection Ha' as <-. nra.
  - rewrite (calculateAcceleration_cruise v target (grade_rad st) distance Hhold)
      in Hacc.
    injection Hacc as <-. lra.
  - destruct (calculateAcceleration_brake_crawl v target (grade_rad st) distance)
      as (a' & Ha' & Hlow); [lra | exact Hdown | exact Hsin |].
    rewrite Hacc in Ha'. injection Ha' as <-.
    assert (0.1 < v).
    { unfold Rmax in Hdown. destruct (Rle_dec 0 target); lra. }
    nra.
Qed.

End DefaultEngineMore.

Lemma calculateEngineRPM_decreases_with_gear_witness :
  0 < 20 /\ (1 <= 2)%Z /\ (2 < 5)%Z /\ (5 <= 6)%Z /\
  exists rpm rpm',
    calculateEngineRPM (mkPhysicsEngine default_params 0.1) 20 2 = Ok rpm /\
    calculateEngineRPM (mkPhysicsEngine default_params 0.1) 20 5 = Ok rpm' /\
    rpm' < rpm.
Proof.
  assert (Hv : 0 < 20) by lra.
  assert (H1 : (1 <= 2)%Z) by lia.
  assert (H2 : (2 < 5)%Z) by lia.
  assert (H3 : (5 <= 6)%Z) by lia.
  split; [exact Hv |]. split; [exact H1 |]. split; [exact H2 |].
  split; [exact H3 |].
  exact (calculateEngineRPM_decreases_with_gear 0.1 20 2 5 Hv H1 H2 H3).
Defined.

(** The braking instance of the specification: from 30 m/s to a stop on a
    level road. *)
Lemma calculateAcceleration_brake_negative_witness :
  Rmax 0 0 - Rmax 0 30 < - 0.1 /\
  0 <= sin 0 /\
  exists a,
    calculateAcceleration (mkPhysicsEngine default_params 0.1) 30 0 0 10
    = Ok a /\
    - 6 <= a < 0.
Proof.
  assert (Herr : Rmax 0 0 - Rmax 0 30 < - 0.1).
  { rewrite (Rmax_left 0 0) by lra. rewrite (Rmax_right 0 30) by lra. lra. }
  assert (Hsin : 0 <= sin 0) by (rewrite sin_0; lra).
  split; [exact Herr |]. split; [exact Hsin |].
  exact (calculateAcceleration_brake_negative 0.1 30 0 0 10 Herr Hsin).
Defined.

(** The starting instance of the specification: from rest towards 10 m/s on
    a level road. *)
Lemma calculateAcceleration_from_standstill_witness :
  0 <= 0 /\ 0.1 < 10 /\ sin 0 <= 0 /\
  exists a,
    calculateAcceleration (mkPhysicsEngine default_params 0.1) 0 10 0 100
    = Ok a /\
    0 < a <= 0.8.
Proof.
  assert (Hv : 0 <= 0) by lra.
  assert (Ht : 0.1 < 10) by lra.
  assert (Hsin : sin 0 <= 0) by (rewrite sin_0; lra).
  split; [exact Hv |]. split; [exact Ht |]. split; [exact Hsin |].
  exact (calculateAcceleration_from_standstill 0.1 0 10 0 100 Hv Ht Hsin).
Defined.

Lemma simulateStep_speed_change_bounded_witness :
  0 <= 0.1 /\
  0 <= speed_ms (mkVehicleState 10 0 0 0 0 800 1 0 0) /\
  exists st',
    simulateStep (mkPhysicsEngine default_params 0.1)
      (mkVehicleState 10 0 0 0 0 800 1 0 0) 20 50 = Ok st' /\
    - 6 <= acceleration_ms2 st' <= 4 /\
    speed_ms (mkVehicleState 10 0 0 0 0 800 1 0 0) - 6 * 0.1
    <= speed_ms st'
    <= speed_ms (mkVehicleState 10 0 0 0 0 800 1 0 0) + 4 * 0.1.
Proof.
  assert (Hdt : 0 <= 0.1) by lra.
  assert (Hv : 0 <= speed_ms (mkVehicleState 10 0 0 0 0 800 1 0 0))
    by (simpl; lra).
  split; [exact Hdt |]. split; [exact Hv |].
  exact (simulateStep_speed_change_bounded 0.1
           (mkVehicleState 10 0 0 0 0 800 1 0 0) 20 50 Hdt Hv).
Defined.

Lemma simulateStep_cruise_witness :
  0 <= speed_ms (mkVehicleState 20 0 0 0 0 800 1 0 0) /\
  Rabs (Rmax 0 20 - speed_ms (mkVehicleState 20 0 0 0 0 800 1 0 0)) <= 0.1 /\
  exists st',
    simulateStep (mkPhysicsEngine default_params 0.1)
      (mkVehicleState 20 0 0 0 0 800 1 0 0) 20 100 = Ok st' /\
    speed_ms st' = speed_ms (mkVehicleState 20 0 0 0 0 800 1 0 0) /\
    acceleration_ms2 st' = 0 /\
    position_m st'
    = position_m (mkVehicleState 20 0 0 0 0 800 1 0 0)
      + speed_ms (mkVehicleState 20 0 0 0 0 800 1 0 0) * 0.1.
Proof.
  assert (Hv : 0 <= speed_ms (mkVehicleState 20 0 0 0 0 800 1 0 0))
    by (simpl; lra).
  assert (Herr : Rabs (Rmax 0 20
                       - speed_ms (mkVehicleState 20 0 0 0 0 800 1 0 0))
                 <= 0.1).
  { simpl. rewrite (Rmax_right 0 20) by lra.
    replace (20 - 20) with 0 by lra. rewrite Rabs_R0. lra. }
  split; [exact Hv |]. split; [exact Herr |].
  exact (simulateStep_cruise 0.1
           (mkVehicleState 20 0 0 0 0 800 1 0 0) 20 100 Hv Herr).
Defined.

Lemma shift_tests_exclusive_witness :
  shouldUpshift (mkPhysicsEngine default_params 0.1) 6000 10 = true /\
  shouldDownshift (mkPhysicsEngine default_params 0.1) 6000 10 = false.
Proof.
  assert (Hup : shouldUpshift (mkPhysicsEngine default_params 0.1) 6000 10
                = true).
  { unfold shouldUpshift. apply andb_true_iff.
    split; apply Rgtb_true; simpl; lra. }
  split; [exact Hup |].
  exact (shift_tests_exclusive 0.1 6000 10 Hup).
Defined.

Lemma simulateStep_position_nondecreasing_witness :
  0 <= 0.1 <= 0.1 /\
  0 <= speed_ms (mkVehicleState 0.2 0 0 0 0 800 1 0 0) /\
  sin (grade_rad (mkVehicleState 0.2 0 0 0 0 800 1 0 0)) <= 0 /\
  exists st',
    simulateStep (mkPhysicsEngine default_params 0.1)
      (mkVehicleState 0.2 0 0 0 0 800 1 0 0) 0 10 = Ok st' /\
    position_m (mkVehicleState 0.2 0 0 0 0 800 1 0 0) <= position_m st'.
Proof.
  assert (Hdt : 0 <= 0.1 <= 0.1) by lra.
  assert (Hv : 0 <= speed_ms (mkVehicleState 0.2 0 0 0 0 800 1 0 0))
    by (simpl; lra).
  assert (Hsin : sin (grade_rad (mkVehicleState 0.2 0 0 0 0 800 1 0 0)) <= 0)
    by (simpl; rewrite sin_0; lra).
  split; [exact Hdt |]. split; [exact Hv |]. split; [exact Hsin |].
  exact (simulateStep_position_nondecreasing 0.1
           (mkVehicleState 0.2 0 0 0 0 800 1 0 0) 0 10 Hdt Hv Hsin).
Defined.

(** ** More on the estimator *)

Section EstimatorMore.

Import Eigen Estimator EstimatorSpec EstimatorReach.

(** The covariance that [update] stores does not depend on the measurement,
    only on its having two components. *)
Theorem update_covariance_ignores_measurement :
  forall (e : EKF) (z z' : VectorXd),
    built e ->
    length z = 2%nat ->
    length z' = 2%nat ->
    P_ (snd (update z e)) = P_ (snd (update z' e)).
Proof.
  intros e z z' He Hz Hz'.
  rewrite (update_stores z e He Hz), (update_stores z' e He Hz').
  reflexivity.
Qed.

Lemma dot_zero2 (row : VectorXd) : dot row [0; 0] = 0.
Proof.
  destruct row as [| a [| b [| c row]]]; unfold dot; cbn; ring.
Qed.

(** A measurement that is the predicted position itself leaves the state
    where it is. *)
Theorem update_zero_innovation :
  forall (e : EKF) (x y vx vy yaw : R),
    built e ->
    x_ e = [x; y; vx; vy; yaw] ->
    state (snd (update [x; y] e)) = [x; y; vx; vy; yaw].
Proof.
  intros e x y vx vy yaw He Ex.
  rewrite (update_stores [x; y] e He eq_refl). unfold state. cbn [snd x_].
  rewrite Ex.
  assert (Hinn : vsub [x; y] (mvmul H_position [x; y; vx; vy; yaw]) = [0; 0]).
  { unfold H_position. cbn. repeat (f_equal; try lra). }
  rewrite Hinn.
  set (K := mmul (mmul (P_ e) (transpose H_position))
                 (inverse (innovation_covariance e))).
  assert (HK : length K = 5%nat).
  { unfold K. rewrite !mmul_rows.
    destruct He as (_ & _ & _ & _ & _ & _ & [HP _] & _). exact HP. }
  clearbody K.
  do 5 (destruct K as [| ? K]; [discriminate HK |]).
  destruct K; [| discriminate HK].
  cbn [mvmul map vadd map2]. rewrite !dot_zero2.
  repeat (f_equal; try lra).
Qed.


(** A correction never adds uncertainty: in every direction [v], the
    variance [v^T P v] after [update] is at most what it was. *)
Theorem update_never_adds_uncertainty :
  forall (e : EKF) (z v : VectorXd),
    built e ->
    symmetric (P_ e) ->
    positive_semidefinite (P_ e) ->
    length v = 5%nat ->
    dot v (mvmul (P_ (snd (update z e))) v) <= dot v (mvmul (P_ e) v).
Proof.
  intros e z v He Hsym Hpsd Hv.
  destruct (Nat.eq_dec (length z) 2) as [Hz | Hz].
  - pose proof (innovation_covariance_invertible e He Hsym Hpsd) as Hinv.
    pose proof He as (_ & _ & _ & _ & _ & _ & HP & _).
    destruct (symmetric55_entries _ HP Hsym)
      as (p00 & p01 & p02 & p03 & p04 & p11 & p12 & p13 & p14
          & p22 & p23 & p24 & p33 & p34 & p44 & EP).
    destruct (update_covariance z e _ _ _ _ _ _ _ _ _ _ _ _ _ _ _
                He Hz EP Hinv) as (i00 & i01 & i11 & -> & E1 & E2 & E3 & E4).
    rewrite EP in *. clear EP HP Hsym Hinv He.
    destruct (vector5_entries _ Hv) as (v0 & v1 & v2 & v3 & v4 & ->).
    clear Hv.
    pose (g0 := p00 * v0 + p01 * v1 + p02 * v2 + p03 * v3 + p04 * v4).
    pose (g1 := p01 * v0 + p11 * v1 + p12 * v2 + p13 * v3 + p14 * v4).
    pose (u0 := i00 * g0 + i01 * g1).
    pose (u1 := i01 * g0 + i11 * g1).
    specialize (Hpsd [u0; u1; 0; 0; 0] eq_refl).
    assert (C0 : (p00 + 3) * u0 + p01 * u1 = g0).
    { replace ((p00 + 3) * u0 + p01 * u1)
        with (((p00 + 3) * i00 + p01 * i01) * g0
              + ((p00 + 3) * i01 + p01 * i11) * g1)
        by (unfold u0, u1; ring).
      rewrite E1, E2. ring. }
    assert (C1 : p01 * u0 + (p11 + 3) * u1 = g1).
    { replace (p01 * u0 + (p11 + 3) * u1)
        with ((p01 * i00 + (p11 + 3) * i01) * g0
              + (p01 * i01 + (p11 + 3) * i11) * g1)
        by (unfold u0, u1; ring).
      rewrite E3, E4. ring. }
    cbn in Hpsd |- *.
    match goal with
    | |- ?L <= ?V =>
        assert (HA : L = V - (u0 * g0 + u1 * g1))
          by (unfold u0, u1, g0, g1; ring)
    end.
    rewrite HA.
    assert (HB : u0 * g0 + u1 * g1
                 = (u0 * (p00 * u0 + (p01 * u1 + (p02 * 0 + (p03 * 0 + (p04 * 0 + 0)))))
                    + (u1 * (p01 * u0 + (p11 * u1 + (p12 * 0 + (p13 * 0 + (p14 * 0 + 0)))))
                       + (0 * (p02 * u0 + (p12 * u1 + (p22 * 0 + (p23 * 0 + (p24 * 0 + 0)))))
                          + (0 * (p03 * u0 + (p13 * u1 + (p23 * 0 + (p33 * 0 + (p34 * 0 + 0)))))
                             + (0 * (p04 * u0 + (p14 * u1 + (p24 * 0 + (p34 * 0 + (p44 * 0 + 0)))))
                                + 0)))))
                   + 3 * (u0 * u0 + u1 * u1)).
    { rewrite <- C0 at 1. rewrite <- C1 at 1. ring. }
    pose proof (Rle_0_sqr u0). pose proof (Rle_0_sqr u1). unfold Rsqr in *.
    lra.
  - pose proof He as (_ & Hm & _).
    unfold update, size. rewrite Hm.
    destruct (Z.of_nat (length z) =? 2)%Z eqn:E;
      [apply Z.eqb_eq in E; lia |].
    cbn [snd negb]. lra.
Qed.


(** A prediction leaves no direction without uncertainty: after [predict]
    the variance in any direction [v] is at least a thousandth of [v^T v],
    so the stored covariance is positive definite. *)
Theorem predict_positive_definite :
  forall (e : EKF) (forwardAccel yawRate : R) (v : VectorXd),
    built e ->
    positive_semidefinite (P_ e) ->
    length v = 5%nat ->
    1 / 1000 * dot v v
    <= dot v (mvmul (P_ (predict forwardAccel yawRate e)) v).
Proof.
  intros e a w v He Hpsd Hv.
  pose proof He as (_ & _ & _ & _ & _ & _ & HP & Hx).
  destruct (vector5_entries _ Hx) as (x & y & vx & vy & yaw & Ex).
  rewrite (predict_stores a w e x y vx vy yaw He Ex). cbn [P_].
  destruct (matrix55_entries _ HP)
    as (p00 & p01 & p02 & p03 & p04 & p10 & p11 & p12 & p13 & p14
        & p20 & p21 & p22 & p23 & p24 & p30 & p31 & p32 & p33 & p34
        & p40 & p41 & p42 & p43 & p44 & EP).
  rewrite EP in *. clear EP.
  generalize (dt_ e). intros dt.
  destruct (vector5_entries _ Hv) as (v0 & v1 & v2 & v3 & v4 & ->).
  specialize (Hpsd [v0; v1; v2 + dt * v0; v3 + dt * v1; v4] eq_refl).
  unfold F_transition. cbn in Hpsd |- *.
  match goal with
  | |- _ <= ?L =>
      match type of Hpsd with
      | 0 <= ?Rhs =>
          replace L
            with (Rhs + (1 / 1000 * (v0 * v0) + 1 / 1000 * (v1 * v1)
                         + 5 / 100 * (v2 * v2) + 5 / 100 * (v3 * v3)
                         + 1 / 100 * (v4 * v4)))
            by ring
      end
  end.
  pose proof (Rle_0_sqr v0). pose proof (Rle_0_sqr v1).
  pose proof (Rle_0_sqr v2). pose proof (Rle_0_sqr v3).
  pose proof (Rle_0_sqr v4). unfold Rsqr in *.
  lra.
Qed.

(** [setDeltaT] touches neither the state nor the covariance, and the
    [predict] that follows integrates over the new time delta. *)
Theorem setDeltaT_then_predict :
  forall (e : EKF) (dt forwardAccel yawRate x y vx vy yaw : R),
    built e ->
    x_ e = [x; y; vx; vy; yaw] ->
    state (setDeltaT dt e) = state e /\
    P_ (setDeltaT dt e) = P_ e /\
    exists yaw',
      state (predict forwardAccel yawRate (setDeltaT dt e))
      = [x + vx * dt + 0.5 * (forwardAccel * cos yaw) * dt * dt;
         y + vy * dt + 0.5 * (forwardAccel * sin yaw) * dt * dt;
         vx + forwardAccel * cos yaw * dt;
         vy + forwardAccel * sin yaw * dt;
         yaw'] /\
      wrapped (yaw + yawRate * dt) yaw'.
Proof.
  intros e dt a w x y vx vy yaw He Ex.
  assert (Hx : x_ (setDeltaT dt e) = [x; y; vx; vy; yaw]) by exact Ex.
  split; [reflexivity |]. split; [reflexivity |].
  rewrite (predict_stores a w (setDeltaT dt e) x y vx vy yaw
             (setDeltaT_built dt e He) Hx).
  unfold state. cbn [x_].
  change (dt_ (setDeltaT dt e)) with dt.
  eexists. split; [reflexivity | apply wrap_loops_wrapped].
Qed.

(** With no acceleration and no yaw rate [predict] is motion at constant
    velocity, and a yaw within [-PI, PI] is kept. *)
Theorem predict_constant_velocity :
  forall (e : EKF) (x y vx vy yaw : R),
    built e ->
    x_ e = [x; y; vx; vy; yaw] ->
    - PI <= yaw <= PI ->
    state (predict 0 0 e)
    = [x + vx * dt_ e; y + vy * dt_ e; vx; vy; yaw].
Proof.
  intros e x y vx vy yaw He Ex Hyaw.
  rewrite (predict_stores 0 0 e x y vx vy yaw He Ex).
  unfold state. cbn [x_].
  replace (yaw + 0 * dt_ e) with yaw by ring.
  rewrite (wrap_loops_fixed yaw Hyaw).
  repeat (f_equal; try ring).
Qed.

(** The velocity changes by a vector of length [|a| dt]: the squares of the
    two increments add up to [(a dt)^2]. *)
Theorem predict_velocity_increment :
  forall (e : EKF) (forwardAccel yawRate x y vx vy yaw : R),
    built e ->
    x_ e = [x; y; vx; vy; yaw] ->
    let s' := state (predict forwardAccel yawRate e) in
    (coeff s' 2 - vx) ^ 2 + (coeff s' 3 - vy) ^ 2
    = (forwardAccel * dt_ e) ^ 2.
Proof.
  intros e a w x y vx vy yaw He Ex s'. subst s'.
  rewrite (predict_stores a w e x y vx vy yaw He Ex).
  unfold state, coeff. cbn [x_ nth].
  pose proof (sin2_cos2 yaw) as Htrig. unfold Rsqr in Htrig.
  replace ((vx + a * cos yaw * dt_ e - vx) ^ 2
           + (vy + a * sin yaw * dt_ e - vy) ^ 2)
    with ((a * dt_ e) ^ 2 * (sin yaw * sin yaw + cos yaw * cos yaw))
    by ring.
  rewrite Htrig. ring.
Qed.


(** The first correction after [init]: the position moves 10/13 of the way
    to the measurement, velocity and yaw stay, and the position variances
    drop from 10 to 30/13. *)
Theorem first_update_after_init :
  forall (e : EKF) (x y vx vy yaw zx zy : R),
    built e ->
    let e' := snd (update [zx; zy] (snd (init [x; y; vx; vy; yaw] e))) in
    state e'
    = [x + 10 / 13 * (zx - x); y + 10 / 13 * (zy - y); vx; vy; yaw] /\
    P_ e'
    = [[30 / 13; 0; 0; 0; 0];
       [0; 30 / 13; 0; 0; 0];
       [0; 0; 10; 0; 0];
       [0; 0; 0; 10; 0];
       [0; 0; 0; 0; 10]].
Proof.
  intros e x y vx vy yaw zx zy He e'. subst e'.
  set (e1 := snd (init [x; y; vx; vy; yaw] e)).
  assert (He1 : built e1) by (apply init_built; exact He).
  assert (Ex1 : x_ e1 = [x; y; vx; vy; yaw]).
  { unfold e1, init, size.
    destruct He as (-> & _). reflexivity. }
  assert (EP1 : P_ e1 = P_initial).
  { unfold e1, init, size.
    destruct He as (-> & _ & _ & _ & _ & _ & HP & _).
    cbn [length Z.of_nat Pos.of_succ_nat Pos.succ Z.eqb Pos.eqb negb snd].
    unfold set_P_, set_x_. cbn [P_]. apply init_covariance. exact HP. }
  rewrite (update_stores [zx; zy] e1 He1 eq_refl). unfold state. cbn [snd P_ x_].
  rewrite (innovation_covariance_entries e1 _ _ _ _ _ _ _ _ _ _ _ _ _ _ _ _ _ _
             _ _ _ _ _ _ _ He1 EP1).
  destruct (inverse_2x2 (10 + 3) 0 0 (10 + 3))
    as (i00 & i01 & i10 & i11 & -> & _ & Hprod).
  destruct Hprod as (E1 & E2 & E3 & E4); [lra |].
  assert (I00 : i00 = 1 / 13) by lra. assert (I01 : i01 = 0) by lra.
  assert (I10 : i10 = 0) by lra. assert (I11 : i11 = 1 / 13) by lra.
  subst i00 i01 i10 i11. clear E1 E2 E3 E4.
  rewrite Ex1, EP1. unfold P_initial. rewrite H_position_entries.
  cbn. split; repeat (f_equal; try lra).
Qed.

(** Whatever the calls, an estimator keeps the sizes and the constant
    matrices of its constructor, a transition matrix that matches its time
    delta, and a symmetric positive semi-definite covariance, for which the
    innovation covariance has an inverse. *)
Theorem reachable_invariant :
  forall e : EKF,
    reachable e ->
    built e /\
    F_ e = F_transition (dt_ e) /\
    symmetric (P_ e) /\
    positive_semidefinite (P_ e) /\
    invertible (innovation_covariance e).
Proof.
  assert (Hstep : forall e,
             built e -> F_ e = F_transition (dt_ e) ->
             symmetric (P_ e) -> positive_semidefinite (P_ e) ->
             built e /\ F_ e = F_transition (dt_ e) /\
             symmetric (P_ e) /\ positive_semidefinite (P_ e) /\
             invertible (innovation_covariance e)).
  { intros e Hb HF Hs Hp.
    split; [exact Hb |]. split; [exact HF |]. split; [exact Hs |].
    split; [exact Hp |].
    apply innovation_covariance_invertible; assumption. }
  intros e Hreach.
  induction Hreach as [dt | s e _ IH | dt e _ IH | a w e _ IH | z e _ IH].
  - apply Hstep.
    + apply new_built.
    + reflexivity.
    + apply new_symmetric.
    + apply new_positive_semidefinite.
  - destruct IH as (Hb & HF & Hs & Hp & _).
    pose proof (init_built s e Hb) as Hb'.
    pose proof Hb as (_ & _ & _ & _ & _ & _ & HP & _).
    revert Hb'. unfold init, size.
    destruct (Z.of_nat (length s) =? state_dim_ e)%Z; cbn [negb snd];
      intros Hb'.
    + apply Hstep.
      * exact Hb'.
      * exact HF.
      * unfold set_P_, set_x_. cbn [P_].
        rewrite (init_covariance _ HP). reflexivity.
      * unfold set_P_, set_x_. cbn [P_].
        rewrite (init_covariance _ HP).
        rewrite <- (new_covariance 0). apply new_positive_semidefinite.
    + apply Hstep; assumption.
  - destruct IH as (Hb & HF & Hs & Hp & _).
    apply Hstep; [apply setDeltaT_built; exact Hb | | exact Hs | exact Hp].
    unfold setDeltaT, set_F_, set_dt_. cbn [F_ dt_].
    apply transition_matrix.
    destruct Hb as (_ & _ & HFm & _). exact HFm.
  - destruct IH as (Hb & HF & Hs & Hp & _).
    apply Hstep.
    + apply predict_built; exact Hb.
    + pose proof Hb as (_ & _ & _ & _ & _ & _ & _ & Hx).
      destruct (vector5_entries _ Hx) as (x & y & vx & vy & yaw & Ex).
      rewrite (predict_stores a w e x y vx vy yaw Hb Ex). reflexivity.
    + apply predict_symmetric; assumption.
    + apply predict_positive_semidefinite; assumption.
  - destruct IH as (Hb & HF & Hs & Hp & Hi).
    apply Hstep.
    + apply update_built; exact Hb.
    + destruct (Nat.eq_dec (length z) 2) as [Hz | Hz].
      * rewrite (update_stores z e Hb Hz). exact HF.
      * pose proof Hb as (_ & Hm & _).
        unfold update, size. rewrite Hm.
        destruct (Z.of_nat (length z) =? 2)%Z eqn:E;
          [apply Z.eqb_eq in E; lia | exact HF].
    + apply update_symmetric; assumption.
    + apply update_positive_semidefinite; assumption.
Qed.

End EstimatorMore.

Lemma update_covariance_ignores_measurement_witness :
  EstimatorSpec.built (Estimator.new 0.1) /\
  length [1; 2] = 2%nat /\ length [3; 4] = 2%nat /\
  Estimator.P_ (snd (Estimator.update [1; 2] (Estimator.new 0.1)))
  = Estimator.P_ (snd (Estimator.update [3; 4] (Estimator.new 0.1))).
Proof.
  pose proof (new_built 0.1) as Hb.
  assert (H1 : length [1; 2] = 2%nat) by reflexivity.
  assert (H2 : length [3; 4] = 2%nat) by reflexivity.
  split; [exact Hb |]. split; [exact H1 |]. split; [exact H2 |].
  exact (update_covariance_ignores_measurement
           (Estimator.new 0.1) [1; 2] [3; 4] Hb H1 H2).
Defined.

Lemma update_zero_innovation_witness :
  EstimatorSpec.built (Estimator.new 0.1) /\
  Estimator.x_ (Estimator.new 0.1) = [0; 0; 0; 0; 0] /\
  Estimator.state (snd (Estimator.update [0; 0] (Estimator.new 0.1)))
  = [0; 0; 0; 0; 0].
Proof.
  pose proof (new_built 0.1) as Hb.
  assert (Hx : Estimator.x_ (Estimator.new 0.1) = [0; 0; 0; 0; 0])
    by reflexivity.
  split; [exact Hb |]. split; [exact Hx |].
  exact (update_zero_innovation (Estimator.new 0.1) 0 0 0 0 0 Hb Hx).
Defined.

Lemma update_never_adds_uncertainty_witness :
  EstimatorSpec.built (Estimator.new 0.1) /\
  EstimatorSpec.symmetric (Estimator.P_ (Estimator.new 0.1)) /\
  EstimatorSpec.positive_semidefinite (Estimator.P_ (Estimator.new 0.1)) /\
  length [1; 0; 0; 0; 0] = 5%nat /\
  Eigen.dot [1; 0; 0; 0; 0]
    (Eigen.mvmul
       (Estimator.P_ (snd (Estimator.update [1; 2] (Estimator.new 0.1))))
       [1; 0; 0; 0; 0])
  <= Eigen.dot [1; 0; 0; 0; 0]
       (Eigen.mvmul (Estimator.P_ (Estimator.new 0.1)) [1; 0; 0; 0; 0]).
Proof.
  pose proof (new_built 0.1) as Hb.
  pose proof (new_symmetric 0.1) as Hs.
  pose proof (new_positive_semidefinite 0.1) as Hp.
  assert (Hv : length [1; 0; 0; 0; 0] = 5%nat) by reflexivity.
  split; [exact Hb |]. split; [exact Hs |]. split; [exact Hp |].
  split; [exact Hv |].
  exact (update_never_adds_uncertainty
           (Estimator.new 0.1) [1; 2] [1; 0; 0; 0; 0] Hb Hs Hp Hv).
Defined.

Lemma predict_positive_definite_witness :
  EstimatorSpec.built (Estimator.new 0.1) /\
  EstimatorSpec.positive_semidefinite (Estimator.P_ (Estimator.new 0.1)) /\
  length [0; 0; 0; 0; 1] = 5%nat /\
  1 / 1000 * Eigen.dot [0; 0; 0; 0; 1] [0; 0; 0; 0; 1]
  <= Eigen.dot [0; 0; 0; 0; 1]
       (Eigen.mvmul
          (Estimator.P_ (Estimator.predict 1 0.2 (Estimator.new 0.1)))
          [0; 0; 0; 0; 1]).
Proof.
  pose proof (new_built 0.1) as Hb.
  pose proof (new_positive_semidefinite 0.1) as Hp.
  assert (Hv : length [0; 0; 0; 0; 1] = 5%nat) by reflexivity.
  split; [exact Hb |]. split; [exact Hp |]. split; [exact Hv |].
  exact (predict_positive_definite
           (Estimator.new 0.1) 1 0.2 [0; 0; 0; 0; 1] Hb Hp Hv).
Defined.

Lemma setDeltaT_then_predict_witness :
  EstimatorSpec.built (Estimator.new 0.1) /\
  Estimator.x_ (Estimator.new 0.1) = [0; 0; 0; 0; 0] /\
  Estimator.P_ (Estimator.setDeltaT 0.5 (Estimator.new 0.1))
  = Estimator.P_ (Estimator.new 0.1).
Proof.
  pose proof (new_built 0.1) as Hb.
  assert (Hx : Estimator.x_ (Estimator.new 0.1) = [0; 0; 0; 0; 0])
    by reflexivity.
  split; [exact Hb |]. split; [exact Hx |].
  exact (proj1 (proj2
    (setDeltaT_then_predict (Estimator.new 0.1) 0.5 1 0.2 0 0 0 0 0 Hb Hx))).
Defined.

Lemma predict_constant_velocity_witness :
  EstimatorSpec.built (Estimator.new 0.1) /\
  Estimator.x_ (Estimator.new 0.1) = [0; 0; 0; 0; 0] /\
  - PI <= 0 <= PI /\
  Estimator.state (Estimator.predict 0 0 (Estimator.new 0.1))
  = [0 + 0 * Estimator.dt_ (Estimator.new 0.1);
     0 + 0 * Estimator.dt_ (Estimator.new 0.1); 0; 0; 0].
Proof.
  pose proof (new_built 0.1) as Hb.
  assert (Hx : Estimator.x_ (Estimator.new 0.1) = [0; 0; 0; 0; 0])
    by reflexivity.
  assert (Hyaw : - PI <= 0 <= PI) by (pose proof PI_RGT_0; lra).
  split; [exact Hb |]. split; [exact Hx |]. split; [exact Hyaw |].
  exact (predict_constant_velocity (Estimator.new 0.1) 0 0 0 0 0 Hb Hx Hyaw).
Defined.

Lemma predict_velocity_increment_witness :
  EstimatorSpec.built (Estimator.new 0.1) /\
  Estimator.x_ (Estimator.new 0.1) = [0; 0; 0; 0; 0] /\
  (Eigen.coeff
     (Estimator.state (Estimator.predict 2 0.2 (Estimator.new 0.1))) 2 - 0) ^ 2
  + (Eigen.coeff
       (Estimator.state (Estimator.predict 2 0.2 (Estimator.new 0.1))) 3 - 0) ^ 2
  = (2 * Estimator.dt_ (Estimator.new 0.1)) ^ 2.
Proof.
  pose proof (new_built 0.1) as Hb.
  assert (Hx : Estimator.x_ (Estimator.new 0.1) = [0; 0; 0; 0; 0])
    by reflexivity.
  split; [exact Hb |]. split; [exact Hx |].
  exact (predict_velocity_increment (Estimator.new 0.1) 2 0.2 0 0 0 0 0 Hb Hx).
Defined.

Lemma first_update_after_init_witness :
  EstimatorSpec.built (Estimator.new 0.1) /\
  Estimator.state
    (snd (Estimator.update [13; 26]
            (snd (Estimator.init [0; 0; 1; 2; 0] (Estimator.new 0.1)))))
  = [0 + 10 / 13 * (13 - 0); 0 + 10 / 13 * (26 - 0); 1; 2; 0].
Proof.
  pose proof (new_built 0.1) as Hb.
  split; [exact Hb |].
  exact (proj1 (first_update_after_init
                  (Estimator.new 0.1) 0 0 1 2 0 13 26 Hb)).
Defined.

Lemma reachable_invariant_witness :
  EstimatorReach.reachable (Estimator.predict 1 0.2 (Estimator.new 0.1)) /\
  EstimatorSpec.positive_semidefinite
    (Estimator.P_ (Estimator.predict 1 0.2 (Estimator.new 0.1))).
Proof.
  assert (Hr : EstimatorReach.reachable
                 (Estimator.predict 1 0.2 (Estimator.new 0.1)))
    by (apply EstimatorReach.reach_predict, EstimatorReach.reach_new).
  split; [exact Hr |].
  exact (proj1 (proj2 (proj2 (proj2 (reachable_invariant _ Hr))))).
Defined.

(** ** The geometry and angle utilities *)

Section GeoFacts.

Import Geo.

Lemma std_clamp_bounds (v lo hi : R) :
  lo <= hi -> lo <= std_clamp v lo hi <= hi.
Proof.
  intros Hle. unfold std_clamp.
  destruct (v <? lo) eqn:E1; [lra |]. apply Rltb_false in E1.
  destruct (hi <? v) eqn:E2; [lra |]. apply Rltb_false in E2. lra.
Qed.

(** [norm_angle] brings any angle into [-PI, PI] by whole turns, and applied
    twice it does what it does once. *)
Theorem norm_angle_range_idempotent :
  forall a : R,
    - PI <= norm_angle a <= PI /\
    (exists k : Z, norm_angle a = a + IZR k * (2 * PI)) /\
    norm_angle (norm_angle a) = norm_angle a.
Proof.
  intros a. unfold norm_angle.
  destruct (wrap_loops_wrapped a) as [Hrange Hturns].
  split; [exact Hrange |]. split; [exact Hturns |].
  apply wrap_loops_fixed. exact Hrange.
Qed.

Lemma atan_nonneg (t : R) : 0 <= t -> 0 <= atan t.
Proof.
  intros [Hpos | <-].
  - left. rewrite <- atan_0. apply atan_increasing. exact Hpos.
  - rewrite atan_0. lra.
Qed.




(** With both arguments not negative, [atan2] is an angle of the first
    quadrant. *)
Lemma atan2_first_quadrant (y x : R) :
  0 <= y -> 0 <= x -> 0 <= atan2 y x <= PI / 2.
Proof.
  intros Hy Hx. pose proof PI_RGT_0 as Hpi.
  unfold atan2.
  destruct (0 <? x) eqn:Ex.
  - apply Rltb_true in Ex.
    assert (Hq : 0 <= y / x).
    { unfold Rdiv. apply Rmult_le_pos; [exact Hy |].
      left. apply Rinv_0_lt_compat. exact Ex. }
    pose proof (atan_nonneg _ Hq). pose proof (atan_bound (y / x)). lra.
  - rewrite (proj2 (Rltb_false x 0)) by lra.
    destruct (0 <? y); [lra |].
    rewrite (proj2 (Rltb_false y 0)) by lra. lra.
Qed.



Lemma sin_half_sqr (x : R) : sin (x / 2) * sin (x / 2) = (1 - cos x) / 2.
Proof.
  pose proof (cos_2a_sin (x / 2)) as H.
  replace (2 * (x / 2)) with x in H by field. lra.
Qed.

(** For latitudes between the poles the quantity under the square roots of
    [haversine_m] lies in [0, 1]. *)
Lemma haversine_argument_unit (p1 p2 dlon : R) :
  0 <= cos p1 -> 0 <= cos p2 ->
  0 <= sin ((p2 - p1) / 2) * sin ((p2 - p1) / 2)
       + cos p1 * cos p2 * sin (dlon / 2) * sin (dlon / 2)
  <= 1.
Proof.
  intros H1 H2.
  rewrite sin_half_sqr.
  replace (cos p1 * cos p2 * sin (dlon / 2) * sin (dlon / 2))
    with (cos p1 * cos p2 * (sin (dlon / 2) * sin (dlon / 2))) by ring.
  rewrite sin_half_sqr.
  pose proof (COS_bound (p2 - p1)) as [Ha Hb].
  pose proof (COS_bound dlon) as [Hc Hd].
  pose proof (COS_bound (p1 + p2)) as [He Hf].
  assert (HC : 0 <= cos p1 * cos p2) by (apply Rmult_le_pos; assumption).
  set (C := cos p1 * cos p2) in *.
  assert (Hminus : cos (p2 - p1) = C + sin p2 * sin p1)
    by (rewrite cos_minus; unfold C; ring).
  assert (Hplus : cos (p1 + p2) = C - sin p1 * sin p2)
    by (rewrite cos_plus; unfold C; ring).
  set (S := sin p1 * sin p2) in *.
  replace (sin p2 * sin p1) with S in Hminus by (unfold S; ring).
  clearbody C S.
  set (u := (1 - cos dlon) / 2).
  assert (Hu : 0 <= u <= 1) by (unfold u; lra).
  clearbody u. rewrite Hminus. rewrite Hplus in *.
  split; nra.
Qed.

(** The distance between two coordinates with latitudes between the poles
    is at least 0 and at most half the circumference; from a coordinate to
    itself it is 0, and it is the same in both directions. *)
Theorem haversine_m_metric :
  forall lat1 lon1 lat2 lon2 : R,
    0 <= cos (lat1 * DEG2RAD) ->
    0 <= cos (lat2 * DEG2RAD) ->
    0 <= haversine_m lat1 lon1 lat2 lon2 <= PI * EARTH_R /\
    haversine_m lat1 lon1 lat1 lon1 = 0 /\
    haversine_m lat1 lon1 lat2 lon2 = haversine_m lat2 lon2 lat1 lon1.
Proof.
  intros lat1 lon1 lat2 lon2 H1 H2.
  pose proof PI_RGT_0 as Hpi.
  assert (HR : 0 < EARTH_R) by (unfold EARTH_R; lra).
  split; [| split].
  - unfold haversine_m.
    pose proof (haversine_argument_unit (lat1 * DEG2RAD) (lat2 * DEG2RAD)
                  ((lon2 - lon1) * DEG2RAD) H1 H2) as Hunit.
    replace (lat2 * DEG2RAD - lat1 * DEG2RAD) with ((lat2 - lat1) * DEG2RAD)
      in Hunit by ring.
    match goal with
    | |- context [atan2 (sqrt ?a) (sqrt ?b)] =>
        assert (Ha : 0 <= a) by lra;
        assert (Hb : 0 <= b) by lra;
        pose proof (atan2_first_quadrant (sqrt a) (sqrt b)
                      (sqrt_positivity a Ha) (sqrt_positivity b Hb)) as Hq;
        set (c := atan2 (sqrt a) (sqrt b)) in *; clearbody c
    end.
    split; nra.
  - unfold haversine_m.
    replace ((lat1 - lat1) * DEG2RAD / 2) with 0 by (unfold Rdiv; ring).
    replace ((lon1 - lon1) * DEG2RAD / 2) with 0 by (unfold Rdiv; ring).
    rewrite sin_0.
    replace (0 * 0 + cos (lat1 * DEG2RAD) * cos (lat1 * DEG2RAD) * 0 * 0)
      with 0 by ring.
    rewrite Rminus_0_r, sqrt_0, sqrt_1.
    unfold atan2.
    rewrite (proj2 (Rltb_true 0 1)) by lra.
    replace (0 / 1) with 0 by field. rewrite atan_0. ring.
  - unfold haversine_m.
    replace ((lat1 - lat2) * DEG2RAD / 2) with (- ((lat2 - lat1) * DEG2RAD / 2))
      by (unfold Rdiv; ring).
    replace ((lon1 - lon2) * DEG2RAD / 2) with (- ((lon2 - lon1) * DEG2RAD / 2))
      by (unfold Rdiv; ring).
    rewrite !sin_neg.
    match goal with
    | |- _ * (2 * atan2 (sqrt ?a) (sqrt (1 - ?a)))
         = _ * (2 * atan2 (sqrt ?b) (sqrt (1 - ?b))) =>
        replace b with a by ring
    end.
    reflexivity.
Qed.

(** Local frame and back: the latitude comes back as it was; the longitude
    comes back with its offset from the origin scaled by the cosine of the
    mean latitude over the cosine of the origin's latitude, so it comes back
    as it was exactly when it is the origin's or the two cosines agree. *)
Theorem local_frame_round_trip :
  forall lat0 lon0 lat lon : R,
    cos (lat0 * DEG2RAD) <> 0 ->
    let xy := ll_to_local_xy lat0 lon0 lat lon in
    let ll := local_xy_to_ll lat0 lon0 (fst xy) (snd xy) in
    fst ll = lat /\
    snd ll = lon0 + (lon - lon0)
                    * (cos ((lat0 + lat) * 0.5 * DEG2RAD)
                       / cos (lat0 * DEG2RAD)) /\
    (snd ll = lon <->
     lon = lon0 \/
     cos ((lat0 + lat) * 0.5 * DEG2RAD) = cos (lat0 * DEG2RAD)).
Proof.
  intros lat0 lon0 lat lon Hcos xy ll. subst xy ll.
  pose proof PI_RGT_0 as Hpi.
  assert (HR : EARTH_R <> 0) by (unfold EARTH_R; lra).
  assert (Hunit : DEG2RAD * RAD2DEG = 1).
  { unfold DEG2RAD, RAD2DEG.
    replace 180.0 with 180 by lra. field. lra. }
  unfold ll_to_local_xy, local_xy_to_ll. cbn [fst snd].
  set (c0 := cos (lat0 * DEG2RAD)) in *.
  set (cm := cos ((lat0 + lat) * 0.5 * DEG2RAD)) in *.
  assert (Hlat : lat0 + (lat - lat0) * DEG2RAD * EARTH_R / EARTH_R * RAD2DEG
                 = lat).
  { replace ((lat - lat0) * DEG2RAD * EARTH_R / EARTH_R * RAD2DEG)
      with ((lat - lat0) * (DEG2RAD * RAD2DEG)) by (field; exact HR).
    rewrite Hunit. ring. }
  assert (Hlon : lon0 + (lon - lon0) * DEG2RAD * EARTH_R * cm
                        / (EARTH_R * c0) * RAD2DEG
                 = lon0 + (lon - lon0) * (cm / c0)).
  { replace ((lon - lon0) * DEG2RAD * EARTH_R * cm / (EARTH_R * c0) * RAD2DEG)
      with ((lon - lon0) * (cm / c0) * (DEG2RAD * RAD2DEG))
      by (field; split; assumption).
    rewrite Hunit. ring. }
  split; [exact Hlat |]. split; [exact Hlon |].
  rewrite Hlon. split.
  - intros Heq.
    assert (Hz : (lon - lon0) * (cm / c0 - 1) = 0) by lra.
    apply Rmult_integral in Hz. destruct Hz as [Hz | Hz]; [left; lra |].
    right. assert (Hq : cm / c0 = 1) by lra.
    apply (f_equal (fun t => t * c0)) in Hq.
    unfold Rdiv in Hq. rewrite Rmult_assoc, Rinv_l in Hq by exact Hcos. lra.
  - intros [-> | ->]; [ring | field; exact Hcos].
Qed.

(** The slope is always strictly between -90 and 90 degrees. *)
Theorem slope_deg_range :
  forall dz dist_m : R, - 90 < slope_deg dz dist_m < 90.
Proof.
  intros dz d. unfold slope_deg.
  destruct (d <=? 1e-6) eqn:E; [lra |].
  apply Rleb_false in E.
  pose proof PI_RGT_0 as Hpi.
  unfold atan2. rewrite (proj2 (Rltb_true 0 d)) by lra.
  pose proof (atan_bound (dz / d)) as [Hlo Hhi].
  set (t := atan (dz / d)) in *. clearbody t.
  unfold RAD2DEG.
  assert (Hq : - (1 / 2) < t / PI < 1 / 2).
  { split.
    - apply Rmult_lt_reg_r with (r := PI); [lra |].
      unfold Rdiv at 2. rewrite Rmult_assoc, Rinv_l by lra. lra.
    - apply Rmult_lt_reg_r with (r := PI); [lra |].
      unfold Rdiv at 1. rewrite Rmult_assoc, Rinv_l by lra. lra. }
  replace 180.0 with 180 by lra.
  replace (t * (180 / PI)) with (180 * (t / PI)) by (field; lra).
  lra.
Qed.

End GeoFacts.

Lemma haversine_m_metric_witness :
  0 <= cos (0 * Geo.DEG2RAD) /\
  0 <= cos (0 * Geo.DEG2RAD) /\
  0 <= Geo.haversine_m 0 10 0 20 <= PI * Geo.EARTH_R.
Proof.
  assert (H : 0 <= cos (0 * Geo.DEG2RAD))
    by (rewrite Rmult_0_l, cos_0; lra).
  split; [exact H |]. split; [exact H |].
  exact (proj1 (haversine_m_metric 0 10 0 20 H H)).
Defined.

Lemma local_frame_round_trip_witness :
  cos (0 * Geo.DEG2RAD) <> 0 /\
  fst (Geo.local_xy_to_ll 0 0
         (fst (Geo.ll_to_local_xy 0 0 1 2))
         (snd (Geo.ll_to_local_xy 0 0 1 2))) = 1.
Proof.
  assert (H : cos (0 * Geo.DEG2RAD) <> 0)
    by (rewrite Rmult_0_l, cos_0; lra).
  split; [exact H |].
  exact (proj1 (local_frame_round_trip 0 0 1 2 H)).
Defined.

(** ** The speed-profile program *)

Section SimulationFacts.

Import Simulation.

Lemma simulation_params_nondegenerate : nondegenerate (params_ physics).
Proof. unfold nondegenerate; simpl. repeat split; lra. Qed.

Lemma simulation_loop_body_facts :
  forall (point : RoutePoint.t) (c : Carry),
  exists c',
    loop_body point c = Ok c' /\
    0 <= speed_ms (current_state c') /\
    position_m (current_state c) <= position_m (current_state c') /\
    - 6 <= acceleration_ms2 (current_state c') <= 4 /\
    (1 <= current_gear (current_state c') <= 6)%Z /\
    calculateEngineRPM physics (speed_ms (current_state c'))
      (current_gear (current_state c'))
    = Ok (engine_rpm (current_state c')) /\
    throttle_percent (current_state c') = throttle_percent (current_state c) /\
    brake_percent (current_state c') = brake_percent (current_state c).
Proof.
  intros point c. unfold loop_body.
  match goal with
  | |- context [calculateAcceleration physics ?v ?t ?g ?d] =>
      destruct (calculateAcceleration_total_bounded physics
                  simulation_params_nondegenerate v t g d) as (a & Ha & Hbound);
      rewrite Ha
  end.
  cbn [bind].
  match goal with
  | |- context [selectOptimalGear physics ?v ?t] =>
      destruct (selectOptimalGear_total physics simulation_params_nondegenerate v t)
        as (gear & Hg & Hrange);
      rewrite Hg
  end.
  cbn [bind].
  match goal with
  | |- context [calculateEngineRPM physics ?v ?g] =>
      destruct (calculateEngineRPM_total physics simulation_params_nondegenerate v g)
        as (rpm & Hrpm);
      rewrite Hrpm
  end.
  cbn [bind].
  eexists. split; [reflexivity |].
  cbn [current_state speed_ms position_m acceleration_ms2 current_gear
       engine_rpm throttle_percent brake_percent grade_rad
       set_engine_rpm set_current_gear set_position_m set_speed_ms
       set_acceleration_ms2 set_elevation_m set_grade_rad] in *.
  match goal with
  | |- context [Std.max 0.0 ?x] =>
      pose proof (std_max_lb 0.0 x) as [Hv _];
      set (v' := Std.max 0.0 x) in *
  end.
  split; [lra |].
  split; [unfold dt; nra |].
  split; [exact Hbound |].
  split; [exact Hrange |].
  split; [exact Hrpm |].
  split; reflexivity.
Qed.

(** One pass of the loop body always succeeds.  It leaves a speed that is
    not negative, never moves the vehicle backwards, stores an acceleration
    within [-6, 4], one of the six gears and the engine speed of that gear at
    the new speed, and never writes the throttle and brake fields. *)
Theorem simulation_loop_body_step :
  forall (point : RoutePoint.t) (c : Carry),
  exists c',
    loop_body point c = Ok c' /\
    0 <= speed_ms (current_state c') /\
    position_m (current_state c) <= position_m (current_state c') /\
    - 6 <= acceleration_ms2 (current_state c') <= 4 /\
    (1 <= current_gear (current_state c') <= 6)%Z /\
    calculateEngineRPM physics (speed_ms (current_state c'))
      (current_gear (current_state c'))
    = Ok (engine_rpm (current_state c')) /\
    throttle_percent (current_state c') = throttle_percent (current_state c) /\
    brake_percent (current_state c') = brake_percent (current_state c).
Proof. exact simulation_loop_body_facts. Qed.

(** The ramp on the target speed: one pass moves the filtered target towards
    the raw target by no more than 0.15 m/s, and onto it when it is that
    close. *)
Theorem simulation_target_ramp :
  forall (point : RoutePoint.t) (c : Carry),
  exists c',
    loop_body point c = Ok c' /\
    let raw := RoutePoint.speed_kmh point / 3.6 in
    Rabs (filtered_target_ms c' - filtered_target_ms c) <= 0.15 /\
    Rabs (raw - filtered_target_ms c')
    <= Rabs (raw - filtered_target_ms c) /\
    (Rabs (raw - filtered_target_ms c) <= 0.15 ->
     filtered_target_ms c' = raw).
Proof.
  intros point c.
  destruct (simulation_loop_body_facts point c) as (c' & Hstep & _).
  exists c'. split; [exact Hstep |]. intros raw.
  unfold loop_body in Hstep.
  match type of Hstep with
  | context [calculateAcceleration physics ?v ?t ?g ?d] =>
      destruct (calculateAcceleration_total_bounded physics
                  simulation_params_nondegenerate v t g d) as (a & Ha & _);
      rewrite Ha in Hstep
  end.
  cbn [bind] in Hstep.
  match type of Hstep with
  | context [selectOptimalGear physics ?v ?t] =>
      destruct (selectOptimalGear_total physics simulation_params_nondegenerate v t)
        as (gear & Hg & _);
      rewrite Hg in Hstep
  end.
  cbn [bind] in Hstep.
  match type of Hstep with
  | context [calculateEngineRPM physics ?v ?g] =>
      destruct (calculateEngineRPM_total physics simulation_params_nondegenerate v g)
        as (rpm & Hrpm);
      rewrite Hrpm in Hstep
  end.
  cbn [bind] in Hstep.
  injection Hstep as <-. cbn [filtered_target_ms].
  fold raw. set (f := filtered_target_ms c).
  unfold max_target_delta, target_rate_ms_per_s, dt.
  destruct (raw - f >? 1.5 * 0.1) eqn:E1;
    [apply Rgtb_true in E1 | apply Rgtb_false in E1].
  - rewrite (proj2 (Rltb_false (1.5 * 0.1) (- (1.5 * 0.1)))) by lra.
    unfold Rabs; repeat destruct (Rcase_abs _); repeat split; intros; lra.
  - destruct (raw - f <? - (1.5 * 0.1)) eqn:E2;
      [apply Rltb_true in E2 | apply Rltb_false in E2];
      unfold Rabs; repeat destruct (Rcase_abs _); repeat split; intros; lra.
Qed.

(** The whole loop succeeds on any route: it yields one state per route point,
    each with a speed that is not negative, and positions that never fall
    from one point to the next. *)
Theorem simulation_loop_run :
  forall (points : list RoutePoint.t) (c : Carry),
  exists cs,
    loop points c = Ok cs /\
    length cs = length points /\
    Forall (fun c' => 0 <= speed_ms (current_state c')) cs /\
    forall i : nat,
      (S i < length cs)%nat ->
      position_m (current_state (nth i cs c))
      <= position_m (current_state (nth (S i) cs c)).
Proof.
  assert (Hgen : forall points c,
             exists cs,
               loop points c = Ok cs /\
               length cs = length points /\
               Forall (fun c' => 0 <= speed_ms (current_state c')) cs /\
               forall d i,
                 (i < length cs)%nat ->
                 position_m (current_state (nth i (c :: cs) d))
                 <= position_m (current_state (nth (S i) (c :: cs) d))).
  { induction points as [| point rest IH]; intros c.
    - exists []. repeat split; [constructor | simpl; intros; lia].
    - destruct (simulation_loop_body_facts point c) as (c1 & Hc1 & Hv & Hpos & _).
      destruct (IH c1) as (cs & Hcs & Hlen & Hall & Hmono).
      exists (c1 :: cs). cbn [loop]. rewrite Hc1. cbn [bind].
      rewrite Hcs. cbn [bind].
      split; [reflexivity |].
      split; [simpl; lia |].
      split; [constructor; assumption |].
      intros d i Hi. destruct i as [| i].
      + exact Hpos.
      + apply (Hmono d i). simpl in Hi. lia. }
  intros points c.
  destruct (Hgen points c) as (cs & Hcs & Hlen & Hall & Hmono).
  exists cs. split; [exact Hcs |]. split; [exact Hlen |].
  split; [exact Hall |].
  intros i Hi.
  destruct cs as [| c1 cs]; [simpl in Hi; lia |].
  pose proof (Hmono c (S i)) as H. cbn [nth] in H |- *.
  apply H. exact Hi.
Qed.

End SimulationFacts.

(** ** The trajectory program *)

Section TrajectoryFacts.

Import Eigen Estimator EstimatorSpec Geo Trajectory.

(** The time delta that the estimator is built with lies in the range that
    the program clamps every later time delta to. *)
Lemma initial_dt_range (timestamps : list R) :
  MIN_DT <= initial_dt timestamps <= MAX_DT.
Proof.
  assert (Hdef : MIN_DT <= 0.1 <= MAX_DT) by (unfold MIN_DT, MAX_DT; lra).
  unfold initial_dt.
  destruct timestamps as [| t0 [| t1 rest]]; try exact Hdef.
  destruct (t1 - t0 >? 0.0); [| exact Hdef].
  apply std_clamp_bounds. unfold MIN_DT, MAX_DT. lra.
Qed.

(** The estimator of the program is built without a dimension error. *)
Lemma initial_filter_built (init_dt mx my : R) :
  fst (initial_filter init_dt mx my) = Returned /\
  built (snd (initial_filter init_dt mx my)).
Proof.
  unfold initial_filter. split.
  - reflexivity.
  - apply init_built, new_built.
Qed.

Lemma trajectory_loop_body_facts (init_dt lat0 lon0 : R) (i : nat) (w : Waypoint)
      (c : Carry) :
  built (filter c) ->
  exists c' s,
    loop_body init_dt lat0 lon0 i w c = inr (c', s) /\
    built (filter c') /\
    - MAX_YAWRATE <= gyro_z s <= MAX_YAWRATE /\
    MAX_LONG_DEC <= accel_x s <= MAX_LONG_ACC /\
    - PI <= coeff (state (filter c')) 4 <= PI /\
    time_sec s = time_accum c' /\
    ((0 < i)%nat \/ MIN_DT <= init_dt <= MAX_DT ->
     MIN_DT <= time_accum c' - time_accum c <= MAX_DT) /\
    ((0 < i)%nat -> dt_ (filter c') = time_accum c' - time_accum c).
Proof.
  intros Hb. unfold loop_body.
  set (dt := if Nat.eqb i 0 then init_dt
             else clampd (timestamp w - prev_timestamp c) MIN_DT MAX_DT).
  set (f1 := if Nat.ltb 0 i then setDeltaT dt (filter c) else filter c).
  assert (Hb1 : built f1).
  { unfold f1. destruct (Nat.ltb 0 i); [apply setDeltaT_built |]; exact Hb. }
  rewrite (update_stores [meas_x w; meas_y w] f1 Hb1 eq_refl).
  cbv zeta.
  match goal with
  | |- context [mkEKF ?a ?b ?k ?d ?e ?f ?g ?h ?j] =>
      set (f2 := mkEKF a b k d e f g h j)
  end.
  assert (Hb2 : built f2).
  { pose proof (update_built [meas_x w; meas_y w] f1 Hb1) as H.
    rewrite (update_stores [meas_x w; meas_y w] f1 Hb1 eq_refl) in H.
    exact H. }
  assert (Hdt2 : dt_ f2 = dt_ f1) by reflexivity.
  clearbody f2.
  do 2 eexists. split; [reflexivity |].
  cbn [filter gyro_z accel_x time_sec time_accum].
  set (yr := clampd _ (- MAX_YAWRATE) MAX_YAWRATE).
  set (al := if Nat.ltb 0 i then _ else 0.0).
  split; [apply predict_built; exact Hb2 |].
  split; [apply std_clamp_bounds; unfold MAX_YAWRATE; lra |].
  split.
  { unfold al. destruct (Nat.ltb 0 i).
    - apply std_clamp_bounds. unfold MAX_LONG_DEC, MAX_LONG_ACC. lra.
    - unfold MAX_LONG_DEC, MAX_LONG_ACC. lra. }
  split.
  { pose proof Hb2 as (_ & _ & _ & _ & _ & _ & _ & Hx).
    destruct (vector5_entries _ Hx) as (x & y & vx & vy & yaw & Ex).
    rewrite (predict_stores al yr f2 x y vx vy yaw Hb2 Ex).
    unfold state, coeff. cbn [x_ nth]. apply wrap_loops_wrapped. }
  split; [reflexivity |].
  split.
  - intros Hi.
    replace (time_accum c + dt - time_accum c) with dt by ring.
    unfold dt. destruct (Nat.eqb i 0) eqn:E.
    + apply Nat.eqb_eq in E. destruct Hi as [Hi | Hi]; [lia | exact Hi].
    + apply std_clamp_bounds. unfold MIN_DT, MAX_DT. lra.
  - intros Hi.
    assert (Hlt : Nat.ltb 0 i = true) by (apply Nat.ltb_lt; lia).
    pose proof Hb2 as (_ & _ & _ & _ & _ & _ & _ & Hx).
    destruct (vector5_entries _ Hx) as (x & y & vx & vy & yaw & Ex).
    rewrite (predict_stores al yr f2 x y vx vy yaw Hb2 Ex).
    cbn [dt_]. rewrite Hdt2. unfold f1. rewrite Hlt.
    unfold setDeltaT, set_F_, set_dt_. cbn [dt_]. ring.
Qed.

(** One pass over a waypoint never throws, whatever the waypoint and the
    carry hold.  The yaw rate it emits is within 0.6 rad/s of zero, the
    longitudinal acceleration within [-3, 2], the estimator's yaw within
    [-PI, PI]; after the first waypoint the elapsed time grows by a step of
    [0.05, 2], which is the time delta the estimator predicted with. *)
Theorem trajectory_loop_body_step :
  forall (init_dt lat0 lon0 : R) (i : nat) (w : Waypoint) (c : Carry),
    built (filter c) ->
    exists c' s,
      loop_body init_dt lat0 lon0 i w c = inr (c', s) /\
      built (filter c') /\
      - MAX_YAWRATE <= gyro_z s <= MAX_YAWRATE /\
      MAX_LONG_DEC <= accel_x s <= MAX_LONG_ACC /\
      - PI <= coeff (state (filter c')) 4 <= PI /\
      ((0 < i)%nat ->
       MIN_DT <= time_accum c' - time_accum c <= MAX_DT /\
       dt_ (filter c') = time_accum c' - time_accum c).
Proof.
  intros init_dt lat0 lon0 i w c Hb.
  destruct (trajectory_loop_body_facts init_dt lat0 lon0 i w c Hb)
    as (c' & s & Hrun & Hb' & Hyaw & Hacc & Hpsi & _ & Htime & Hdt).
  exists c', s.
  split; [exact Hrun |]. split; [exact Hb' |]. split; [exact Hyaw |].
  split; [exact Hacc |]. split; [exact Hpsi |].
  intros Hi. split; [apply Htime; left; exact Hi | apply Hdt; exact Hi].
Qed.

Lemma trajectory_loop_facts (init_dt lat0 lon0 : R) :
  MIN_DT <= init_dt <= MAX_DT ->
  forall (ws : list Waypoint) (i : nat) (c : Carry),
    built (filter c) ->
    exists c' samples,
      loop init_dt lat0 lon0 i ws c = inr (c', samples) /\
      length samples = length ws /\
      built (filter c') /\
      Forall (fun s => - MAX_YAWRATE <= gyro_z s <= MAX_YAWRATE /\
                       MAX_LONG_DEC <= accel_x s <= MAX_LONG_ACC) samples /\
      forall j : nat,
        (j < length samples)%nat ->
        MIN_DT
        <= nth (S j) (time_accum c :: map time_sec samples) 0
           - nth j (time_accum c :: map time_sec samples) 0
        <= MAX_DT.
Proof.
  intros Hinit. induction ws as [| w rest IH]; intros i c Hb.
  - exists c, []. cbn [loop]. split; [reflexivity |].
    split; [reflexivity |]. split; [exact Hb |].
    split; [constructor |]. simpl. intros; lia.
  - destruct (trajectory_loop_body_facts init_dt lat0 lon0 i w c Hb)
      as (c1 & s & Hrun & Hb1 & Hyaw & Hacc & _ & Hsec & Htime & _).
    destruct (IH (S i) c1 Hb1) as (c2 & ss & Hloop & Hlen & Hb2 & Hall & Hmono).
    exists c2, (s :: ss). cbn [loop]. rewrite Hrun, Hloop.
    split; [reflexivity |].
    split; [simpl; lia |].
    split; [exact Hb2 |].
    split; [constructor; [split; assumption | exact Hall] |].
    intros j Hj. destruct j as [| j].
    + cbn [nth map]. rewrite Hsec. apply Htime. right. exact Hinit.
    + cbn [map]. rewrite Hsec.
      change (nth (S (S j)) (time_accum c :: time_accum c1 :: map time_sec ss) 0)
        with (nth (S j) (time_accum c1 :: map time_sec ss) 0).
      change (nth (S j) (time_accum c :: time_accum c1 :: map time_sec ss) 0)
        with (nth j (time_accum c1 :: map time_sec ss) 0).
      apply Hmono. simpl in Hj. lia.
Qed.

(** The whole run.  The estimator is initialised without a dimension error
    and the loop never throws; it yields one sample per waypoint, each with
    a yaw rate within 0.6 rad/s of zero and a longitudinal acceleration
    within [-3, 2], and the time of each sample is later than that of the
    one before it (0 before the first) by a step of [0.05, 2]. *)
Theorem trajectory_run :
  forall (timestamps : list R) (lat0 lon0 meas_x0 meas_y0 : R)
         (speed0 heading0 timestamp0 : R) (ws : list Waypoint),
    let init_dt := initial_dt timestamps in
    let c0 := mkCarry (snd (initial_filter init_dt meas_x0 meas_y0))
                speed0 heading0 timestamp0 0.0 in
    fst (initial_filter init_dt meas_x0 meas_y0) = Returned /\
    exists c' samples,
      loop init_dt lat0 lon0 0 ws c0 = inr (c', samples) /\
      length samples = length ws /\
      Forall (fun s => - MAX_YAWRATE <= gyro_z s <= MAX_YAWRATE /\
                       MAX_LONG_DEC <= accel_x s <= MAX_LONG_ACC) samples /\
      forall j : nat,
        (j < length samples)%nat ->
        MIN_DT
        <= nth (S j) (0.0 :: map time_sec samples) 0
           - nth j (0.0 :: map time_sec samples) 0
        <= MAX_DT.
Proof.
  intros timestamps lat0 lon0 mx my v0 h0 t0 ws init_dt c0.
  destruct (initial_filter_built init_dt mx my) as [Hret Hb].
  split; [exact Hret |].
  destruct (trajectory_loop_facts init_dt lat0 lon0
              (initial_dt_range timestamps) ws 0 c0 Hb)
    as (c' & samples & Hloop & Hlen & _ & Hall & Htime).
  exists c', samples.
  split; [exact Hloop |]. split; [exact Hlen |]. split; [exact Hall |].
  exact Htime.
Qed.

End TrajectoryFacts.

(** The second waypoint of a run, met by an estimator fresh from its
    constructor. *)
Lemma trajectory_loop_body_step_witness :
  EstimatorSpec.built
    (Trajectory.filter (Trajectory.mkCarry (Estimator.new 0.1) 5 0 0 0)) /\
  exists c' s,
    Trajectory.loop_body 0.1 0 0 1 (Trajectory.mkWaypoint 1 2 3 6 0.1)
      (Trajectory.mkCarry (Estimator.new 0.1) 5 0 0 0) = inr (c', s) /\
    EstimatorSpec.built (Trajectory.filter c').
Proof.
  assert (H : EstimatorSpec.built
                (Trajectory.filter
                   (Trajectory.mkCarry (Estimator.new 0.1) 5 0 0 0)))
    by apply new_built.
  split; [exact H |].
  destruct (trajectory_loop_body_step 0.1 0 0 1
              (Trajectory.mkWaypoint 1 2 3 6 0.1)
              (Trajectory.mkCarry (Estimator.new 0.1) 5 0 0 0) H)
    as (c' & s & Hrun & Hb & _).
  exists c', s. split; [exact Hrun | exact Hb].
Defined.
